(** * paper-reference-agent: page normalisation, title matching, source
      clients, cache and page-extraction chain

    A shallow embedding of [paper_agent/utils.py], [paper_agent/searcher.py],
    [paper_agent/cache.py] and the BibTeX page extractor of
    [paper_agent/extractors.py], with the properties the specification
    states about them and further properties of the code.

    Conventions of the embedding.
    - A Python [str] is a list of code points.  The embedding covers the
      strings whose code points are below 256, carried by [ascii]; on that
      range [str.lower], [str.isspace], the regular-expression classes [\s]
      and [\d] and case-insensitive matching are the tables given below.
    - A Python [float] score is an exact rational ([Q]); the decimal literals
      of the source denote the fractions they spell.
    - Network replies, web pages and external tools are inputs of the
      functions that consume them.
    - An exception is a value: [Raise] in the [outcome] type; [try]/[except]
      is a match on it.
    - The cache directory is a finite map from keys to payload files, plus
      the file [metadata.json].  Writing and removing a file succeed (the
      source catches a failed write and prints it); reading may fail.
    - A record returned by a searcher or read from the cache is a non-empty
      dictionary, hence truthy. *)

From Stdlib Require Import ZArith QArith Qminmax Ascii String List Lia Lqa.
From Stdlib Require Import Sorting.Sorted.
From stdpp Require Import gmap strings list.

Open Scope Q_scope.
Open Scope list_scope.

(** ** Python strings *)

Abbreviation str := (list ascii).

(** A string literal of the source. *)
Definition py (s : string) : str := list_ascii_of_string s.

Module PyStr.

Definition code (c : ascii) : N := N_of_ascii c.

Definition between (lo hi : N) (c : ascii) : bool :=
  ((lo <=? code c) && (code c <=? hi))%N.

(** [str.isspace] on one code point, also the class [\s]:
    U+0009..U+000D, U+001C..U+001F, U+0020, U+0085, U+00A0. *)
Definition isspace (c : ascii) : bool :=
  between 9 13 c || between 28 31 c || (code c =? 32)%N
  || (code c =? 133)%N || (code c =? 160)%N.

(** The class [\d]: U+0030..U+0039. *)
Definition isdigit (c : ascii) : bool := between 48 57 c.

(** [str.lower] on one code point: A..Z, and U+00C0..U+00DE except U+00D7. *)
Definition lower_char (c : ascii) : ascii :=
  if between 65 90 c || (between 192 222 c && negb (code c =? 215)%N)
  then ascii_of_N (code c + 32) else c.

Definition lower (s : str) : str := map lower_char s.

Fixpoint lstrip (s : str) : str :=
  match s with
  | [] => []
  | c :: s' => if isspace c then lstrip s' else s
  end.

Definition rstrip (s : str) : str := rev (lstrip (rev s)).

Definition strip (s : str) : str := rstrip (lstrip s).

(** The maximal runs of characters satisfying [p], left to right; [cur] is
    the run being read. *)
Fixpoint runs_from (p : ascii -> bool) (cur s : str) : list str :=
  match s with
  | [] => match cur with [] => [] | _ => [cur] end
  | c :: s' =>
      if p c then runs_from p (cur ++ [c]) s'
      else match cur with
           | [] => runs_from p [] s'
           | _ => cur :: runs_from p [] s'
           end
  end.

Definition runs (p : ascii -> bool) (s : str) : list str := runs_from p [] s.

(** [s.split()]: the whitespace-separated words. *)
Definition split (s : str) : list str := runs (fun c => negb (isspace c)) s.

(** [re.findall(r'\d+', s)]. *)
Definition findall_digits (s : str) : list str := runs isdigit s.

Fixpoint startswith (s prefix : str) : bool :=
  match prefix, s with
  | [] , _ => true
  | p :: prefix', c :: s' => bool_decide (c = p) && startswith s' prefix'
  | _ :: _, [] => false
  end.

(** [needle in hay]. *)
Fixpoint contains (hay needle : str) : bool :=
  startswith hay needle ||
  match hay with
  | [] => false
  | _ :: hay' => contains hay' needle
  end.

(** Truth value of a string: non-empty. *)
Definition truthy (s : str) : bool :=
  match s with [] => false | _ => true end.

End PyStr.

(** ** utils.py: normalize_pages *)

Module Utils.
Import PyStr.

(** A pattern letter under [re.IGNORECASE]. *)
Definition ci_match (pat c : ascii) : bool := bool_decide (lower_char c = pat).

(** The literal [lit] (lower case) at the head of [s], any case. *)
Fixpoint eat_ci (lit s : str) : option str :=
  match lit, s with
  | [], _ => Some s
  | p :: lit', c :: s' => if ci_match p c then eat_ci lit' s' else None
  | _ :: _, [] => None
  end.

(** [x?] for one pattern letter, greedy. *)
Definition eat_opt_ci (pat : ascii) (s : str) : str :=
  match s with
  | c :: s' => if ci_match pat c then s' else s
  | [] => s
  end.

(** The group [(pages?|pp?\.?)] at the start of the string: what follows it.
    The alternatives are tried in order; what follows the group ([\s*])
    always matches, so the first alternative that matches is kept and
    every optional letter is taken when present. *)
Definition match_label (s : str) : option str :=
  match eat_ci (py "page") s with
  | Some r => Some (eat_opt_ci "s" r)
  | None =>
      match eat_ci (py "p") s with
      | Some r => Some (eat_opt_ci "." (eat_opt_ci "p" r))
      | None => None
      end
  end.

(** [re.sub(r'^(pages?|pp?\.?)\s*', '', pages, flags=re.IGNORECASE)]. *)
Definition sub_label (pages : str) : str :=
  match match_label pages with
  | Some r => lstrip r
  | None => pages
  end.

Definition normalize_pages (pages : str) : option str :=
  if negb (truthy pages) then None
  else
    let pages := sub_label pages in
    let numbers := findall_digits pages in
    match numbers with
    | n0 :: n1 :: _ => Some (n0 ++ py "-" ++ n1)
    | [n0] => Some n0
    | [] => None
    end.

(** *** similarity_score *)

(** [len(x)] as a Python integer. *)
Definition len {A} (l : list A) : Z := Z.of_nat (length l).

(** [a / b] on integers (true division); every use is guarded by
    [b > 0]. *)
Definition true_div (a b : Z) : Q := inject_Z a / inject_Z b.

Definition Qltb (x y : Q) : bool := negb (Qle_bool y x).

(** [l.index(w)]; [None] stands for [ValueError]. *)
Fixpoint index (l : list str) (w : str) : option nat :=
  match l with
  | [] => None
  | x :: l' => if bool_decide (x = w) then Some O else S <$> index l' w
  end.

(** [all(l[i] < l[i+1] for i in range(len(l)-1))]. *)
Fixpoint is_ordered (l : list nat) : bool :=
  match l with
  | a :: l' =>
      match l' with
      | b :: _ => (a <? b)%nat && is_ordered l'
      | [] => true
      end
  | [] => true
  end.

(** The substring branch: the score by word-count difference and length
    ratio. *)
Definition containment_score (str1 str2 : str) : Q :=
  let len_ratio :=
    if (0 <? len str2)%Z then true_div (len str1) (len str2) else 0 in
  let words1_count := len (split str1) in
  let words2_count := len (split str2) in
  let word_diff := (words2_count - words1_count)%Z in
  if (word_diff =? 0)%Z then 0.98
  else if (word_diff <=? 1)%Z && Qltb 0.8 len_ratio then 0.95
  else if (word_diff <=? 2)%Z && Qltb 0.7 len_ratio then 0.85
  else if (word_diff <=? 3)%Z then 0.75
  else 0.6.

(** The order signal ("method 4"). *)
Definition order_score (words1 words2 : list str) : Q :=
  let set1 : gset str := list_to_set words1 in
  let set2 : gset str := list_to_set words2 in
  let intersection := size (set1 ∩ set2) in
  if (0 <? intersection)%nat then
    let words1_list := filter (fun w => w ∈ set2) words1 in
    let words2_list := filter (fun w => w ∈ set1) words2 in
    if (1 <? length words1_list)%nat then
      match mapM (index words2_list)
                 (filter (fun w => w ∈ words2_list) words1_list) with
      | Some indices1 =>
          if (1 <? length indices1)%nat then
            if is_ordered indices1 then 0.3 else 0.1
          else 0.0
      | None => 0.0
      end
    else 0.0
  else 0.0.

(** The word-set branch, for the two word lists. *)
Definition word_score (words1 words2 : list str) : Q :=
  let set1 : gset str := list_to_set words1 in
  let set2 : gset str := list_to_set words2 in
  let intersection := Z.of_nat (size (set1 ∩ set2)) in
  let union := Z.of_nat (size (set1 ∪ set2)) in
  let jaccard_score :=
    if (0 <? union)%Z then true_div intersection union else 0.0 in
  let coverage_score :=
    if (0 <? Z.of_nat (size set1))%Z
    then true_div intersection (Z.of_nat (size set1)) else 0.0 in
  let len_diff := Z.abs (len words1 - len words2) in
  let max_len := Z.max (len words1) (len words2) in
  let length_score :=
    if (0 <? max_len)%Z then 1.0 - true_div len_diff max_len else 0.0 in
  let order_score := order_score words1 words2 in
  let final_score :=
    coverage_score * 0.5 + jaccard_score * 0.3
    + length_score * 0.15 + order_score * 0.05 in
  if Qle_bool 1.0 coverage_score then Qmin 1.0 (final_score * 1.1)
  else final_score.

Definition similarity_score (str1 str2 : str) : Q :=
  let str1 := strip (lower str1) in
  let str2 := strip (lower str2) in
  if bool_decide (str1 = str2) then 1.0
  else if contains str2 str1 then containment_score str1 str2
  else
    let words1 := split str1 in
    let words2 := split str2 in
    match words1, words2 with
    | [], _ | _, [] => 0.0
    | _, _ => word_score words1 words2
    end.

End Utils.

(** ** Exceptions *)

Inductive outcome (A : Type) : Type :=
| Raise : outcome A
| Ret (a : A) : outcome A.
Arguments Raise {A}.
Arguments Ret {A} a.

(** ** searcher.py: the source clients *)

Module Searcher.
Import PyStr Utils.

(** The clients [PaperAgent] can hold, behind the one interface
    [search(query)]. *)
Inductive client : Type :=
| SemanticScholar | DBLP | CrossRef | GoogleScholar | PMLR.

Section Clients.
(** One entry of a source's reply, and the canonical record a client
    returns. *)
Variable raw : Type.
Variable record : Type.

(** An entry of the reply with the title the client reads from it
    ([paper.get('title', '')], [info.get('title', '')], the first element
    of CrossRef's title list or ['']). *)
Record hit : Type := { hit_title : str; hit_info : raw }.

(** What a client makes of the entry it selected: [_parse_paper_info]
    (the entry itself for Google Scholar); it runs inside the client's
    [try]. *)
Variable parse : client -> raw -> outcome record.

(** best_match = None; best_score = 0.0;
    for paper in papers: if score > best_score: ... *)
Definition best_step (query : str) (acc : option hit * Q) (paper : hit)
  : option hit * Q :=
  let score := similarity_score query (hit_title paper) in
  if Qltb (snd acc) score then (Some paper, score) else acc.

Definition best_of (query : str) (papers : list hit) : option hit * Q :=
  fold_left (best_step query) papers (None, 0.0).

(** [SemanticScholarSearcher.search], [CrossRefSearcher.search] and
    [GoogleScholarSearcher.search] after the request: [reply] is the
    list of entries, or [Raise] when the request or its decoding
    failed. *)
Definition threshold_search (c : client) (query : str)
           (reply : outcome (list hit)) : option record :=
  match reply with
  | Raise => None
  | Ret [] => None
  | Ret papers =>
      let (best_match, best_score) := best_of query papers in
      if Qltb best_score 0.3 then None
      else match best_match with
           | Some paper =>
               match parse c (hit_info paper) with
               | Ret r => Some r
               | Raise => None
               end
           | None => None
           end
  end.

(** *** DBLPSearcher.search *)

Record candidate : Type :=
  { info : raw; score : Q; title : str; word_diff : Z }.

(** The body of the loop over the hits: the adjusted score and the
    word-count difference of one hit. *)
Definition dblp_candidate (query : str) (h : hit) : candidate :=
  let title := hit_title h in
  let score := similarity_score query title in
  let query_words := len (split query) in
  let title_words := len (split title) in
  let word_diff := (title_words - query_words)%Z in
  let score :=
    if (3 <? word_diff)%Z then score * 0.7
    else if (1 <? word_diff)%Z then score * 0.9
    else score in
  let score :=
    if (Z.abs word_diff <=? 1)%Z && Qltb 0.5 score
    then Qmin 1.0 (score * 1.1) else score in
  {| info := hit_info h; score := score; title := title;
     word_diff := word_diff |}.

(** if score > 0.0: candidates.append(...) *)
Definition dblp_candidates (query : str) (hits : list hit)
  : list candidate :=
  filter (fun c => Qltb 0.0 (score c) = true)
         (map (dblp_candidate query) hits).

(** [candidates.sort(key=lambda x: x['score'], reverse=True)]: a stable
    sort, highest score first; candidates of equal score keep their
    order. *)
Fixpoint insert_desc (x : candidate) (l : list candidate)
  : list candidate :=
  match l with
  | [] => [x]
  | y :: l' =>
      if Qltb (score x) (score y) then y :: insert_desc x l'
      else x :: l
  end.

Definition sort_desc (l : list candidate) : list candidate :=
  foldr insert_desc [] l.

(** The coverage test of the tie-break. *)
Definition covers (query : str) (cand : candidate) : bool :=
  let query_words_set : gset str := list_to_set (split (lower query)) in
  let candidate_words_set : gset str :=
    list_to_set (split (lower (title cand))) in
  let coverage :=
    if (0 <? size query_words_set)%nat
    then true_div (Z.of_nat (size (query_words_set ∩ candidate_words_set)))
                  (Z.of_nat (size query_words_set))
    else 0 in
  Qle_bool 1.0 coverage.

(** One round of [for i in range(1, min(3, len(candidates)))]. *)
Definition tie_break_step (query : str) (best_candidate cand : candidate)
  : candidate :=
  let score_diff := score best_candidate - score cand in
  if Qltb score_diff 0.05 then
    if (word_diff cand <? word_diff best_candidate)%Z then
      if covers query cand then cand else best_candidate
    else best_candidate
  else best_candidate.

(** [candidates[0]] refined by [candidates[1]] and [candidates[2]]. *)
Definition tie_break (query : str) (first : candidate)
           (others : list candidate) : candidate :=
  fold_left (tie_break_step query) (take 2 others) first.

Definition dblp_select (query : str) (hits : list hit)
  : option candidate :=
  match sort_desc (dblp_candidates query hits) with
  | [] => None
  | first :: others => Some (tie_break query first others)
  end.

Definition dblp_search (query : str) (reply : outcome (list hit))
  : option record :=
  match reply with
  | Raise => None
  | Ret [] => None
  | Ret hits =>
      match dblp_select query hits with
      | None => None
      | Some best_candidate =>
          if Qltb (score best_candidate) 0.3 then None
          else match parse DBLP (info best_candidate) with
               | Ret r => Some r
               | Raise => None
               end
      end
  end.

(** [PMLRSearcher.search] issues no request and returns [None]. *)
Definition pmlr_search (query : str) : option record := None.

Definition search (c : client) (query : str) (reply : outcome (list hit))
  : option record :=
  match c with
  | SemanticScholar | CrossRef | GoogleScholar =>
      threshold_search c query reply
  | DBLP => dblp_search query reply
  | PMLR => pmlr_search query
  end.

End Clients.

Arguments hit_title {raw}.
Arguments hit_info {raw}.
Arguments info {raw}.
Arguments score {raw}.
Arguments title {raw}.
Arguments word_diff {raw}.
Arguments best_step {raw}.
Arguments best_of {raw}.
Arguments threshold_search {raw record}.
Arguments dblp_candidate {raw}.
Arguments dblp_candidates {raw}.
Arguments insert_desc {raw}.
Arguments sort_desc {raw}.
Arguments covers {raw}.
Arguments tie_break_step {raw}.
Arguments tie_break {raw}.
Arguments dblp_select {raw}.
Arguments dblp_search {raw record}.
Arguments pmlr_search {record}.
Arguments search {raw record}.

End Searcher.

(** ** hashlib.md5 and str.encode('utf-8') *)

Module MD5.

Definition w32 (x : N) : N := N.land x 4294967295.
Definition add32 (a b : N) : N := w32 (a + b).
Definition not32 (a : N) : N := N.lxor a 4294967295.
Definition rotl32 (x c : N) : N :=
  w32 (N.lor (N.shiftl x c) (N.shiftr x (32 - c))).

(** Per-round shift amounts. *)
Definition shifts : list N :=
  [7; 12; 17; 22; 7; 12; 17; 22; 7; 12; 17; 22; 7; 12; 17; 22;
   5; 9; 14; 20; 5; 9; 14; 20; 5; 9; 14; 20; 5; 9; 14; 20;
   4; 11; 16; 23; 4; 11; 16; 23; 4; 11; 16; 23; 4; 11; 16; 23;
   6; 10; 15; 21; 6; 10; 15; 21; 6; 10; 15; 21; 6; 10; 15; 21]%N.

(** floor(2^32 * abs(sin(i + 1))). *)
Definition sines : list N :=
  [3614090360; 3905402710; 606105819; 3250441966;
   4118548399; 1200080426; 2821735955; 4249261313;
   1770035416; 2336552879; 4294925233; 2304563134;
   1804603682; 4254626195; 2792965006; 1236535329;
   4129170786; 3225465664; 643717713; 3921069994;
   3593408605; 38016083; 3634488961; 3889429448;
   568446438; 3275163606; 4107603335; 1163531501;
   2850285829; 4243563512; 1735328473; 2368359562;
   4294588738; 2272392833; 1839030562; 4259657740;
   2763975236; 1272893353; 4139469664; 3200236656;
   681279174; 3936430074; 3572445317; 76029189;
   3654602809; 3873151461; 530742520; 3299628645;
   4096336452; 1126891415; 2878612391; 4237533241;
   1700485571; 2399980690; 4293915773; 2240044497;
   1873313359; 4264355552; 2734768916; 1309151649;
   4149444226; 3174756917; 718787259; 3951481745]%N.

(** The [n] low bytes of [x], least significant first. *)
Fixpoint le_bytes (n : nat) (x : N) : list N :=
  match n with
  | O => []
  | S n' => N.land x 255 :: le_bytes n' (N.shiftr x 8)
  end.

Fixpoint of_le_bytes (bs : list N) : N :=
  match bs with
  | [] => 0
  | b :: bs' => (b + 256 * of_le_bytes bs')%N
  end.

(** The message, a 1 bit, zero bits up to 448 modulo 512, and the length
    in bits on 64 bits. *)
Definition pad (msg : list N) : list N :=
  let l := N.of_nat (length msg) in
  let zeros := ((119 - l mod 64) mod 64)%N in
  msg ++ [128%N] ++ repeat 0%N (N.to_nat zeros) ++ le_bytes 8 (8 * l)%N.

(** The sixteen 32-bit words of a 64-byte block. *)
Fixpoint words (n : nat) (block : list N) : list N :=
  match n with
  | O => []
  | S n' => of_le_bytes (take 4 block) :: words n' (drop 4 block)
  end.

Definition state : Type := N * N * N * N.

Definition step (m : list N) (st : state) (i : nat) : state :=
  let '(a, b, c, d) := st in
  let '(f, g) :=
    if (i <? 16)%nat then
      (N.lor (N.land b c) (N.land (not32 b) d), i)
    else if (i <? 32)%nat then
      (N.lor (N.land d b) (N.land (not32 d) c), ((5 * i + 1) mod 16)%nat)
    else if (i <? 48)%nat then
      (N.lxor b (N.lxor c d), ((3 * i + 5) mod 16)%nat)
    else
      (N.lxor c (N.lor b (not32 d)), ((7 * i) mod 16)%nat) in
  let f := add32 (add32 (add32 f a) (nth i sines 0%N)) (nth g m 0%N) in
  (d, add32 b (rotl32 f (nth i shifts 0%N)), b, c).

Definition compress (st : state) (block : list N) : state :=
  let '(a0, b0, c0, d0) := st in
  let '(a, b, c, d) := fold_left (step (words 16 block)) (seq 0 64) st in
  (add32 a0 a, add32 b0 b, add32 c0 c, add32 d0 d).

Fixpoint blocks (n : nat) (st : state) (bytes : list N) : state :=
  match n with
  | O => st
  | S n' => blocks n' (compress st (take 64 bytes)) (drop 64 bytes)
  end.

Definition digest (msg : list N) : list N :=
  let padded := pad msg in
  let '(a, b, c, d) :=
    blocks (length padded / 64)
           (1732584193, 4023233417, 2562383102, 271733878)%N padded in
  le_bytes 4 a ++ le_bytes 4 b ++ le_bytes 4 c ++ le_bytes 4 d.

Definition hex_digit (n : N) : ascii :=
  ascii_of_N (if (n <? 10)%N then 48 + n else 87 + n).

Definition hexdigest (msg : list N) : str :=
  flat_map (fun b => [hex_digit (N.shiftr b 4); hex_digit (N.land b 15)])
           (digest msg).

(** [s.encode('utf-8')] for code points below 256. *)
Definition encode_utf8 (s : str) : list N :=
  flat_map (fun c =>
              let n := N_of_ascii c in
              if (n <? 128)%N then [n]
              else [N.lor 192 (N.shiftr n 6); N.lor 128 (N.land n 63)])
           s.

End MD5.

(** ** cache.py: CacheManager *)

Module Cache.
Import PyStr.

(** [hashlib.md5(query.lower().encode('utf-8')).hexdigest()]. *)
Definition _get_cache_key (query : str) : str :=
  MD5.hexdigest (MD5.encode_utf8 (lower query)).

(** A point in time ([datetime]) in microseconds, and [timedelta(days=d)]. *)
Definition timedelta_days (d : Z) : Z := (d * 86400000000)%Z.

(** The ['cached_at'] field of a metadata entry as [get] observes it:
    missing (or falsy), a value [datetime.fromisoformat] rejects, or
    the text of a time. *)
Inductive stamp : Type :=
| NoStamp
| BadStamp
| Stamp (t : Z).

Record meta_entry : Type := { m_query : str; cached_at : stamp }.

Section Store.
(** The cached payload: what [json.dump] writes and [json.load] reads
    back. *)
Variable data : Type.

(** [config.CACHE_EXPIRY_DAYS]. *)
Variable CACHE_EXPIRY_DAYS : Z.

(** A payload file [<key>.json]: [json.load] raises on it or returns its
    content. *)
Inductive payload_file : Type :=
| Unreadable
| Holds (d : data).

(** The file [metadata.json]. *)
Inductive metadata_json : Type :=
| MetaUnreadable
| MetaHolds (m : gmap str meta_entry).

(** The cache directory and the manager's in-memory metadata. *)
Record cache_manager : Type :=
  { files : gmap str payload_file;
    metadata_file : option metadata_json;
    metadata : gmap str meta_entry }.

Definition _load_metadata (f : option metadata_json)
  : gmap str meta_entry :=
  match f with
  | Some (MetaHolds m) => m
  | Some MetaUnreadable => ∅
  | None => ∅
  end.

(** [CacheManager(cache_dir)] on a directory. *)
Definition init (dir_files : gmap str payload_file)
           (dir_metadata : option metadata_json) : cache_manager :=
  {| files := dir_files;
     metadata_file := dir_metadata;
     metadata := _load_metadata dir_metadata |}.

Definition _save_metadata (cm : cache_manager) : cache_manager :=
  {| files := files cm;
     metadata_file := Some (MetaHolds (metadata cm));
     metadata := metadata cm |}.

Definition delete (query : str) (cm : cache_manager) : cache_manager :=
  let cache_key := _get_cache_key query in
  let cm :=
    {| files := base.delete cache_key (files cm);
       metadata_file := metadata_file cm;
       metadata := metadata cm |} in
  match metadata cm !! cache_key with
  | Some _ =>
      _save_metadata
        {| files := files cm;
           metadata_file := metadata_file cm;
           metadata := base.delete cache_key (metadata cm) |}
  | None => cm
  end.

(** [get] at the time [now]: the value returned and the manager
    afterwards. *)
Definition get (query : str) (now : Z) (cm : cache_manager)
  : option data * cache_manager :=
  let cache_key := _get_cache_key query in
  match files cm !! cache_key with
  | None => (None, cm)
  | Some f =>
      let cached_time_str :=
        match metadata cm !! cache_key with
        | Some e => cached_at e
        | None => NoStamp
        end in
      let expired :=
        match cached_time_str with
        | Stamp cached_time =>
            let expiry_time :=
              (cached_time + timedelta_days CACHE_EXPIRY_DAYS)%Z in
            (expiry_time <? now)%Z
        | BadStamp => false
        | NoStamp => false
        end in
      if expired then (None, delete query cm)
      else
        match f with
        | Holds d => (Some d, cm)
        | Unreadable => (None, cm)
        end
  end.

(** [set] at the time [now]. *)
Definition set (query : str) (d : data) (now : Z) (cm : cache_manager)
  : cache_manager :=
  let cache_key := _get_cache_key query in
  _save_metadata
    {| files := <[cache_key := Holds d]> (files cm);
       metadata_file := metadata_file cm;
       metadata :=
         <[cache_key := {| m_query := query; cached_at := Stamp now |}]>
           (metadata cm) |}.

(** [clear_all]: every payload file is removed, the metadata emptied and
    saved. *)
Definition clear_all (cm : cache_manager) : cache_manager :=
  _save_metadata
    {| files := ∅;
       metadata_file := metadata_file cm;
       metadata := ∅ |}.

End Store.

Arguments Unreadable {data}.
Arguments Holds {data} d.
Arguments files {data}.
Arguments metadata_file {data}.
Arguments metadata {data}.
Arguments init {data}.
Arguments _save_metadata {data}.
Arguments delete {data}.
Arguments get {data}.
Arguments set {data}.
Arguments clear_all {data}.

End Cache.

(** ** searcher.py: PaperAgent, the page-extraction steps *)

Module Agent.
Import PyStr.

(** The record a searcher returns, with the keys the extraction steps read
    or write; a key that is missing, or whose value is [None], is [None]
    here.  [r_other] stands for the keys they never touch. *)
Record result (other : Type) : Type :=
  { r_title : option str;
    r_url : option str;
    r_dblp_url : option str;
    r_pdf_url : option str;
    r_doi : option str;
    r_pages : option str;
    r_pages_source : option str;
    r_bibtex : option str;
    r_other : other }.
Arguments r_title {other}.
Arguments r_url {other}.
Arguments r_dblp_url {other}.
Arguments r_pdf_url {other}.
Arguments r_doi {other}.
Arguments r_pages {other}.
Arguments r_pages_source {other}.
Arguments r_bibtex {other}.
Arguments r_other {other}.

(** What [PMLRSearcher._extract_from_pmlr_url] returns. *)
Record pmlr_result : Type :=
  { p_pages : option str; p_bibtex : option str }.

(** The external extractors. *)
Inductive extractor : Type :=
| DOI2Bib | NeurIPS | DBLPPage | PMLRPage | HeadRequest | LLMDoi | LLMUrl.

(** What they answer: a page string, [None], or an exception. *)
Record world : Type :=
  { doi2bib : str -> outcome (option str);
    neurips : str -> str -> outcome (option str);
    dblp_page : str -> str -> outcome (option str);
    pmlr_page : str -> str -> outcome (option pmlr_result);
    head_url : str -> outcome str;
    llm_doi : str -> str -> outcome (option str);
    llm_url : str -> str -> outcome (option str) }.

(** What a run does, in order: the extractors it invokes and the
    assignments [result['pages'] = pages]. *)
Inductive event : Type :=
| Called (e : extractor)
| SetPages (pages source : str).

(** A computation that may raise and appends to the trace. *)
Definition prog (A : Type) : Type := list event -> outcome A * list event.

Definition ret {A} (a : A) : prog A := fun log => (Ret a, log).

Definition raise {A} : prog A := fun log => (Raise, log).

Definition bind {A B} (m : prog A) (k : A -> prog B) : prog B :=
  fun log =>
    match m log with
    | (Ret a, log') => k a log'
    | (Raise, log') => (Raise, log')
    end.

Notation "'do' x <- m ; k" := (bind m (fun x => k))
  (at level 10, x name, m at level 100, k at level 200).

(** try: m  except Exception: handler *)
Definition try_except {A} (m handler : prog A) : prog A :=
  fun log =>
    match m log with
    | (Ret a, log') => (Ret a, log')
    | (Raise, log') => handler log'
    end.

Definition call {A} (e : extractor) (answer : outcome A) : prog A :=
  fun log => (answer, log ++ [Called e]).

(** Truth value of [d.get(key)]. *)
Definition otruthy (o : option str) : bool :=
  match o with Some s => truthy s | None => false end.

(** The string behind a value already tested for truth. *)
Definition the (o : option str) : str := default [] o.

(** [a or b]. *)
Definition py_or (a b : option str) : option str :=
  if otruthy a then a else b.

(** [s.split(sep)] for a one-character separator. *)
Fixpoint split_on (sep : ascii) (cur s : str) : list str :=
  match s with
  | [] => [cur]
  | c :: s' =>
      if bool_decide (c = sep) then cur :: split_on sep [] s'
      else split_on sep (cur ++ [c]) s'
  end.

(** [s.split('/')[2]]; [Raise] stands for [IndexError]. *)
Definition third_part (s : str) : outcome str :=
  match split_on "/" [] s !! 2%nat with
  | Some part => Ret part
  | None => Raise
  end.

Fixpoint take_while (p : ascii -> bool) (s : str) : str :=
  match s with
  | c :: s' => if p c then c :: take_while p s' else []
  | [] => []
  end.

Fixpoint drop_while (p : ascii -> bool) (s : str) : str :=
  match s with
  | c :: s' => if p c then drop_while p s' else s
  | [] => []
  end.

Definition not_slash (c : ascii) : bool := negb (bool_decide (c = "/"%char)).
Definition not_newline (c : ascii) : bool :=
  negb (bool_decide (c = ascii_of_nat 10)).

(** The group of [[^/]+/?.*] matched at the head of [s] (which starts with
    a character other than [/]). *)
Definition doi_group (s : str) : str :=
  let head := take_while not_slash s in
  let tail := drop_while not_slash s in
  match tail with
  | c :: tail' => head ++ c :: take_while not_newline tail'
  | [] => head
  end.

(** [re.search] of the pattern [doi\.org/] followed by the group
    [[^/]+/?.*]: group 1 of the leftmost match. *)
Fixpoint doi_search (url : str) : option str :=
  match url with
  | [] => None
  | _ :: url' =>
      if startswith url (py "doi.org/") then
        match drop 8 url with
        | (c :: _) as rest =>
            if not_slash c then Some (doi_group rest) else doi_search url'
        | [] => doi_search url'
        end
      else doi_search url'
  end.

(** [s.rstrip('/')]. *)
Definition rstrip_slash (s : str) : str :=
  rev (drop_while (fun c => bool_decide (c = "/"%char)) (rev s)).

Definition protected_domains : list str :=
  [py "dl.acm.org"; py "aclanthology.org"; py "ieee.org"].

Definition any_domain_in (s : str) : bool :=
  existsb (fun domain => contains s domain) protected_domains.

Section Chain.
Variable other : Type.
Variable w : world.

Abbreviation result := (result other).

(** result['pages'] = pages; result['pages_source'] = source *)
Definition set_pages (r : result) (pages source : str) : prog result :=
  fun log =>
    (Ret {| r_title := r_title r; r_url := r_url r;
            r_dblp_url := r_dblp_url r; r_pdf_url := r_pdf_url r;
            r_doi := r_doi r; r_pages := Some pages;
            r_pages_source := Some source; r_bibtex := r_bibtex r;
            r_other := r_other r |},
     log ++ [SetPages pages source]).

(** result['bibtex'] = bibtex *)
Definition set_bibtex (r : result) (bibtex : str) : result :=
  {| r_title := r_title r; r_url := r_url r;
     r_dblp_url := r_dblp_url r; r_pdf_url := r_pdf_url r;
     r_doi := r_doi r; r_pages := r_pages r;
     r_pages_source := r_pages_source r; r_bibtex := Some bibtex;
     r_other := r_other r |}.

(** Where a block of [_supplement_pages] leaves the function: at a
    [return result], or at the next block. *)
Inductive flow : Type :=
| Return (r : result)
| Continue (r : result).

Definition and_then (m : prog flow) (k : result -> prog flow)
  : prog flow :=
  do f <- m;
  match f with
  | Return r => ret (Return r)
  | Continue r => k r
  end.

(** The NeurIPS block. *)
Definition neurips_block (r : result) (url : option str)
           (paper_title : str) : prog flow :=
  if otruthy url
     && (contains (lower (the url)) (py "neurips.cc")
         || contains (lower (the url)) (py "nips.cc"))
  then
    try_except
      (do pages <- call NeurIPS (neurips w (the url) paper_title);
       if otruthy pages then
         do r' <- set_pages r (the pages) (py "neurips_bibtex");
         ret (Return r')
       else ret (Continue r))
      (ret (Continue r))
  else ret (Continue r).

(** The DBLP block; the extractor is called outside any [try]. *)
Definition dblp_block (r : result) (engines : list str)
           (paper_title : str) : prog flow :=
  let dblp_url := py_or (r_dblp_url r) (r_url r) in
  if otruthy dblp_url
     && (contains (the dblp_url) (py "dblp.org")
         || bool_decide (py "dblp" ∈ engines))
  then
    do pages <- call DBLPPage (dblp_page w (the dblp_url) paper_title);
    if otruthy pages then
      do r' <- set_pages r (the pages) (py "web_extraction");
      ret (Return r')
    else ret (Continue r)
  else ret (Continue r).

(** The PMLR block. *)
Definition pmlr_block (r : result) (url : option str)
           (paper_title : str) : prog flow :=
  if otruthy url
     && contains (lower (the url)) (py "proceedings.mlr.press")
  then
    try_except
      (do pmlr_result <- call PMLRPage (pmlr_page w (the url) paper_title);
       match pmlr_result with
       | Some pr =>
           do r1 <-
             (if otruthy (p_pages pr) && negb (otruthy (r_pages r))
              then set_pages r (the (p_pages pr)) (py "pmlr")
              else ret r);
           let r2 :=
             if otruthy (p_bibtex pr) && negb (otruthy (r_bibtex r1))
             then set_bibtex r1 (the (p_bibtex pr))
             else r1 in
           ret (Continue r2)
       | None => ret (Continue r)
       end)
      (ret (Continue r))
  else ret (Continue r).

(** The first [try] of the DOI branch: doi2bib on the identifier cut
    from the URL. *)
Definition doi2bib_block (r : result) (url : str) : prog flow :=
  try_except
    (match doi_search url with
     | Some group =>
         let doi_identifier := rstrip_slash group in
         do pages <- call DOI2Bib (doi2bib w doi_identifier);
         if otruthy pages then
           do r' <- set_pages r (the pages) (py "doi2bib");
           ret (Return r')
         else ret (Continue r)
     | None => ret (Continue r)
     end)
    (ret (Continue r)).

(** The second [try] of the DOI branch: follow the redirect, then the
    LLM on the DOI page. *)
Definition llm_doi_block (r : result) (url paper_title : str)
  : prog flow :=
  try_except
    (do redirected_url <- call HeadRequest (head_url w url);
     do redirected_domain <-
       (if contains redirected_url (py "/")
        then (fun log => (third_part redirected_url, log))
        else ret []);
     if any_domain_in (lower redirected_domain) then ret (Return r)
     else
       do pages <- call LLMDoi (llm_doi w url paper_title);
       if otruthy pages then
         do r' <- set_pages r (the pages) (py "llm_doi_extraction");
         ret (Return r')
       else ret (Continue r))
    (ret (Continue r)).

(** The last block: the LLM on the page itself. *)
Definition llm_url_block (r : result) (url paper_title : str)
  : prog flow :=
  if negb (any_domain_in (lower url)) then
    try_except
      (do pages <- call LLMUrl (llm_url w url paper_title);
       if otruthy pages then
         do r' <- set_pages r (the pages) (py "llm_extraction");
         ret (Continue r')
       else ret (Continue r))
      (ret (Continue r))
  else ret (Continue r).

(** if not result.get('pages') and url: ... *)
Definition url_block (r : result) (url : option str) (paper_title : str)
  : prog flow :=
  if negb (otruthy (r_pages r)) && otruthy url then
    let url := the url in
    if any_domain_in (lower url) then
      (* the message printed here reads url.split('/')[2] *)
      do _ <- (fun log => (third_part url, log));
      ret (Return r)
    else
      and_then
        (if contains (lower url) (py "doi.org")
            || startswith url (py "https://doi.org/")
            || startswith url (py "http://doi.org/")
         then and_then (doi2bib_block r url)
                       (fun r => llm_doi_block r url paper_title)
         else ret (Continue r))
        (fun r => llm_url_block r url paper_title)
  else ret (Continue r).

Definition _supplement_pages (r : result) (engines : list str)
  : prog result :=
  let url := py_or (py_or (r_url r) (r_dblp_url r)) (r_pdf_url r) in
  let paper_title := default [] (r_title r) in
  do f <-
    and_then (neurips_block r url paper_title) (fun r =>
    and_then (dblp_block r engines paper_title) (fun r =>
    and_then (pmlr_block r url paper_title) (fun r =>
    url_block r url paper_title)));
  match f with
  | Return r => ret r
  | Continue r => ret r
  end.

(** [PaperAgent.search]: what is done to the result of a searcher
    before it is cached and returned (the body of [if result:]). *)
Definition search_extraction (r : result) (engines : list str)
  : prog result :=
  let doi := r_doi r in
  do r <-
    (if otruthy doi then
       if negb (otruthy (r_pages r)) then
         try_except
           (do pages <- call DOI2Bib (doi2bib w (the doi));
            if otruthy pages then set_pages r (the pages) (py "doi2bib")
            else ret r)
           (ret r)
       else ret r
     else ret r);
  if negb (otruthy (r_pages r)) then _supplement_pages r engines
  else ret r.

End Chain.

Arguments Return {other} r.
Arguments Continue {other} r.
Arguments and_then {other}.
Arguments set_pages {other}.
Arguments set_bibtex {other}.

Section Search.
Variable other : Type.
Variable w : world.

(** [self.searchers]: the searcher registered under a name, as the function
    from a query to what its [search] returns (a searcher catches its own
    exceptions). *)
Variable searchers : str -> option (str -> option (result other)).

(** [config.SEARCH_ENGINES] and [config.CACHE_EXPIRY_DAYS]. *)
Variable SEARCH_ENGINES : list str.
Variable CACHE_EXPIRY_DAYS : Z.

(** The loop [for engine_name in engines] up to the first searcher that
    returns a result: that result, and the names of the searchers consulted,
    in order. A name without a searcher is skipped. *)
Fixpoint first_result (query : str) (engines : list str)
  : option (result other) * list str :=
  match engines with
  | [] => (None, [])
  | engine_name :: rest =>
      match searchers engine_name with
      | None => first_result query rest
      | Some searcher =>
          match searcher query with
          | Some r => (Some r, [engine_name])
          | None =>
              let (found, consulted) := first_result query rest in
              (found, engine_name :: consulted)
          end
      end
  end.

(** What a call of [PaperAgent.search] does: the value returned (or the
    exception that escapes), the searchers consulted, the trace of the
    extraction steps, and the cache afterwards. *)
Record search_run : Type :=
  { returned : outcome (option (result other));
    consulted : list str;
    events : list event;
    cache_after : Cache.cache_manager (result other) }.

(** [PaperAgent.search]; [now_get] and [now_set] are the clock readings of
    [cache.get] and [cache.set]. *)
Definition search (query : str) (use_cache : bool)
           (search_engines : option (list str)) (now_get now_set : Z)
           (cm : Cache.cache_manager (result other)) : search_run :=
  let (cached_result, cm) :=
    if use_cache then Cache.get CACHE_EXPIRY_DAYS query now_get cm
    else (None, cm) in
  match cached_result with
  | Some r =>
      {| returned := Ret (Some r); consulted := []; events := [];
         cache_after := cm |}
  | None =>
      let engines :=
        match search_engines with
        | Some (e :: es) => e :: es
        | _ => SEARCH_ENGINES
        end in
      let (found, consulted) := first_result query engines in
      match found with
      | None =>
          {| returned := Ret None; consulted := consulted; events := [];
             cache_after := cm |}
      | Some r =>
          match search_extraction other w r engines [] with
          | (Ret r', log) =>
              {| returned := Ret (Some r'); consulted := consulted;
                 events := log;
                 cache_after :=
                   if use_cache then Cache.set query r' now_set cm else cm |}
          | (Raise, log) =>
              {| returned := Raise; consulted := consulted; events := log;
                 cache_after := cm |}
          end
      end
  end.

(** [PaperAgent.batch_search]; [clock n] gives the clock readings of the
    [n]-th search. An exception that escapes a search ends the batch. *)
Fixpoint batch_search (queries : list str) (use_cache : bool)
         (clock : nat -> Z * Z) (cm : Cache.cache_manager (result other))
  : outcome (list (str * option (result other)))
    * Cache.cache_manager (result other) :=
  match queries with
  | [] => (Ret [], cm)
  | query :: rest =>
      let run :=
        search query use_cache None (fst (clock O)) (snd (clock O)) cm in
      match returned run with
      | Raise => (Raise, cache_after run)
      | Ret result =>
          match batch_search rest use_cache (fun n => clock (S n))
                             (cache_after run) with
          | (Ret results, cm') => (Ret ((query, result) :: results), cm')
          | (Raise, cm') => (Raise, cm')
          end
      end
  end.

End Search.

Arguments returned {other}.
Arguments consulted {other}.
Arguments events {other}.
Arguments cache_after {other}.

End Agent.

(** ** utils.py: clean_title and extract_year *)

Module Titles.
Import PyStr.

(** The class [\w] on code points below 256. *)
Definition isword (c : ascii) : bool :=
  between 48 57 c || between 65 90 c || (code c =? 95)%N
  || between 97 122 c || (code c =? 170)%N || between 178 179 c
  || (code c =? 181)%N || between 185 186 c || between 188 190 c
  || between 192 214 c || between 216 246 c || between 248 255 c.

(** [re.sub(r'\s+', ' ', s)]: every run of whitespace becomes one space;
    [in_run] tells that the previous character was whitespace. *)
Fixpoint collapse_from (in_run : bool) (s : str) : str :=
  match s with
  | [] => []
  | c :: s' =>
      if isspace c then
        if in_run then collapse_from true s'
        else " "%char :: collapse_from true s'
      else c :: collapse_from false s'
  end.

(** The characters the second substitution of [clean_title] keeps: word
    characters, whitespace, and the hyphen, colon, comma and period (the
    CJK range of the pattern lies above code point 255). *)
Definition kept (c : ascii) : bool :=
  isword c || isspace c
  || bool_decide (c = "-"%char) || bool_decide (c = ":"%char)
  || bool_decide (c = ","%char) || bool_decide (c = "."%char).

Definition clean_title (title : str) : str :=
  let title := collapse_from false (strip title) in
  filter (fun c => kept c = true) title.

(** [int(s)] for a string of ASCII digits. *)
Definition int_of_digits (s : str) : Z :=
  fold_left (fun acc c => (10 * acc + (Z.of_N (code c) - 48))%Z) s 0%Z.

(** The pattern [(19|20)\d{2}\b] at the head of [s]: the text matched. *)
Definition match_year (s : str) : option str :=
  match s with
  | c1 :: c2 :: c3 :: c4 :: rest =>
      if ((bool_decide (c1 = "1"%char) && bool_decide (c2 = "9"%char))
          || (bool_decide (c1 = "2"%char) && bool_decide (c2 = "0"%char)))
         && isdigit c3 && isdigit c4
         && match rest with
            | [] => true
            | c :: _ => negb (isword c)
            end
      then Some [c1; c2; c3; c4]
      else None
  | _ => None
  end.

(** [re.search] of that pattern after a word boundary: the leftmost match;
    [prev_word] tells that the previous character was a word character. *)
Fixpoint search_year (prev_word : bool) (s : str) : option str :=
  match s with
  | [] => None
  | c :: s' =>
      match (if prev_word then None else match_year s) with
      | Some found => Some found
      | None => search_year (isword c) s'
      end
  end.

Definition extract_year (text : str) : option Z :=
  match search_year false text with
  | Some found => Some (int_of_digits found)
  | None => None
  end.

End Titles.

(** ** extractors.py: BibTeXExtractor.extract_from_bibtex *)

Module Extractors.
Import PyStr Utils.

Definition quote : ascii := ascii_of_nat 34.

Definition is_opening (c : ascii) : bool :=
  bool_decide (c = "{"%char) || bool_decide (c = quote).

Definition is_closing (c : ascii) : bool :=
  bool_decide (c = "}"%char) || bool_decide (c = quote).

(** The pattern of the pages field at the head of [s], any case: the word
    pages, blanks, an equals sign, blanks, an opening brace or quote, the
    group (one or more characters other than a closing brace or quote, as
    many as there are), and a closing brace or quote. The result is the
    group. *)
Definition match_pages_field (s : str) : option str :=
  match eat_ci (py "pages") s with
  | Some r =>
      match lstrip r with
      | eq :: r1 =>
          if bool_decide (eq = "="%char) then
            match lstrip r1 with
            | opening :: r2 =>
                if is_opening opening then
                  let group :=
                    Agent.take_while (fun c => negb (is_closing c)) r2 in
                  match group,
                        Agent.drop_while (fun c => negb (is_closing c)) r2 with
                  | _ :: _, _ :: _ => Some group
                  | _, _ => None
                  end
                else None
            | [] => None
            end
          else None
      | [] => None
      end
  | None => None
  end.

(** [re.search] of that pattern: the group of the leftmost match. *)
Fixpoint search_pages_field (s : str) : option str :=
  match match_pages_field s with
  | Some group => Some group
  | None =>
      match s with
      | [] => None
      | _ :: s' => search_pages_field s'
      end
  end.

Definition extract_from_bibtex (bibtex : str) : option str :=
  match search_pages_field bibtex with
  | Some group => normalize_pages group
  | None => None
  end.

End Extractors.

(** ** The notions the specification is phrased in *)

Module Spec.
Import PyStr Utils.

(** [rs] lists the maximal non-empty runs of [p]-characters of [s], from
    left to right: [s] is a gap, a run, and what follows, which does not
    start with a [p]-character. *)
Inductive MaximalRuns (p : ascii -> bool) : str -> list str -> Prop :=
| MR_none gap :
    Forall (fun c => p c = false) gap ->
    MaximalRuns p gap []
| MR_run gap run rest rs :
    Forall (fun c => p c = false) gap ->
    run <> [] ->
    Forall (fun c => p c = true) run ->
    (forall c rest', rest = c :: rest' -> p c = false) ->
    MaximalRuns p rest rs ->
    MaximalRuns p (gap ++ run ++ rest) (run :: rs).

(** ASCII punctuation. *)
Definition ispunct (c : ascii) : bool :=
  between 33 47 c || between 58 64 c || between 91 96 c
  || between 123 126 c.

(** The label of the specification: ["pages"] or ["pp."] in any case,
    with the punctuation and space that trail it. *)
Definition strip_label (s : str) : str :=
  let trailer := fun c => isspace c || ispunct c in
  if startswith (lower s) (py "pages") then Agent.drop_while trailer (drop 5 s)
  else if startswith (lower s) (py "pp.") then Agent.drop_while trailer (drop 3 s)
  else s.

(** "{first}-{second}" for two runs or more, the run itself for one,
    absent for none. *)
Definition page_range (numbers : list str) : option str :=
  match numbers with
  | first :: second :: _ => Some (first ++ py "-" ++ second)
  | [only] => Some only
  | [] => None
  end.

Definition digit_free (l : str) : Prop :=
  Forall (fun c => isdigit c = false) l.

(** [r] is [s] without a prefix that holds no digit. *)
Definition DropsLabel (s r : str) : Prop :=
  exists label, s = label ++ r /\ digit_free label.

(** [needle] occurs in [hay] as a contiguous piece. *)
Definition Substring (needle hay : str) : Prop :=
  exists pre post, hay = pre ++ needle ++ post.

(** The characters words are made of. *)
Definition is_word_char (c : ascii) : bool := negb (isspace c).

(** [i] is the first position of [w] in [l]. *)
Definition FirstAt (l : list str) (w : str) (i : nat) : Prop :=
  l !! i = Some w /\ forall j, (j < i)%nat -> l !! j <> Some w.

Definition StrictlyIncreasing (l : list nat) : Prop :=
  forall i j a b,
    (i < j)%nat -> l !! i = Some a -> l !! j = Some b -> (a < b)%nat.

(** The order bonus in the words of the specification: 0.3 if the shared
    words appear in the same relative order in both strings, else 0.1 if
    any shared words exist, else 0. *)
Definition claimed_order_bonus (words1 words2 : list str) : Q :=
  let shared1 := filter (fun w => w ∈ words2) words1 in
  let shared2 := filter (fun w => w ∈ words1) words2 in
  if bool_decide (shared1 = []) then 0
  else if bool_decide (shared1 = shared2) then 0.3
  else 0.1.

(** The score a client ranks a hit by: the adjusted score for DBLP, the
    similarity score for the others. *)
Definition final_score {raw} (c : Searcher.client) (query : str)
           (h : Searcher.hit raw) : Q :=
  match c with
  | Searcher.DBLP => Searcher.score (Searcher.dblp_candidate query h)
  | _ => similarity_score query (Searcher.hit_title h)
  end.

(** [m] is the maximum of the final scores of [hits]. *)
Definition IsMaxScore {raw} (c : Searcher.client) (query : str)
           (hits : list (Searcher.hit raw)) (m : Q) : Prop :=
  (exists h, h ∈ hits /\ final_score c query h = m)
  /\ forall h, h ∈ hits -> final_score c query h <= m.

(** Highest score first. *)
Definition by_score_desc {raw} (a b : Searcher.candidate raw) : Prop :=
  Searcher.score b <= Searcher.score a.

(** The tie-break promotes [cand] over [best]: the scores differ by less
    than 0.05, the word-count difference of [cand] is smaller, and the
    query has a word and the title of [cand] has every word of the query. *)
Definition Promotes {raw} (query : str) (best cand : Searcher.candidate raw)
  : Prop :=
  let QW : gset str := list_to_set (split (lower query)) in
  let TW : gset str := list_to_set (split (lower (Searcher.title cand))) in
  Searcher.score best - Searcher.score cand < 0.05
  /\ (Searcher.word_diff cand < Searcher.word_diff best)%Z
  /\ QW <> ∅ /\ QW ⊆ TW.

(** The condition as the specification words it: within 0.05, a smaller
    word-count difference, and a title that has every word of the query. *)
Definition ClaimedPromotes {raw} (query : str)
           (best cand : Searcher.candidate raw) : Prop :=
  Searcher.score best - Searcher.score cand < 0.05
  /\ (Searcher.word_diff cand < Searcher.word_diff best)%Z
  /\ forall w, w ∈ split (lower query) ->
                w ∈ split (lower (Searcher.title cand)).

(** A page text: digits, or digits, a hyphen, digits. *)
Definition digits (a : str) : Prop :=
  a <> [] /\ Forall (fun c => isdigit c = true) a.

Definition PageText (r : str) : Prop :=
  digits r \/ exists a b, r = a ++ py "-" ++ b /\ digits a /\ digits b.


(** The candidates of [l] whose score is [q], in the order of [l]. *)
Definition cands_of_score {raw} (q : Q) (l : list (Searcher.candidate raw))
  : list (Searcher.candidate raw) :=
  filter (fun c => Qeq_bool (Searcher.score c) q = true) l.

Definition blank (s : str) : Prop := Forall (fun c => isspace c = true) s.

(** The metadata on disk is the metadata in memory. *)
Definition synced {data} (cm : Cache.cache_manager data) : Prop :=
  Cache.metadata_file cm = Some (Cache.MetaHolds (Cache.metadata cm)).

(** A lower-case hexadecimal digit. *)
Definition is_hex (c : ascii) : bool := between 48 57 c || between 97 102 c.

(** The trace assigns no pages. *)
Definition no_set (evs : list Agent.event) : Prop :=
  forall p src, Agent.SetPages p src ∉ evs.

(** [r'] has the title, URLs, DOI and remaining keys of [r], and its BibTeX
    unless [r] had none. *)
Definition same_rest {other} (r r' : Agent.result other) : Prop :=
  Agent.r_title r' = Agent.r_title r
  /\ Agent.r_url r' = Agent.r_url r
  /\ Agent.r_dblp_url r' = Agent.r_dblp_url r
  /\ Agent.r_pdf_url r' = Agent.r_pdf_url r
  /\ Agent.r_doi r' = Agent.r_doi r
  /\ Agent.r_other r' = Agent.r_other r
  /\ (Agent.r_bibtex r' = Agent.r_bibtex r
      \/ Agent.otruthy (Agent.r_bibtex r) = false).

(** The run left the pages of [r] as they were. *)
Definition Untouched {other} (r r' : Agent.result other)
           (evs : list Agent.event) : Prop :=
  no_set evs
  /\ Agent.r_pages r' = Agent.r_pages r
  /\ Agent.r_pages_source r' = Agent.r_pages_source r
  /\ same_rest r r'.

(** The run filled the pages of [r], which had none: one assignment, the
    last event of the trace, of a non-empty page string. *)
Definition Filled {other} (r r' : Agent.result other)
           (evs : list Agent.event) : Prop :=
  exists calls p src,
    evs = calls ++ [Agent.SetPages p src]
    /\ no_set calls
    /\ Agent.otruthy (Agent.r_pages r) = false
    /\ truthy p = true
    /\ Agent.r_pages r' = Some p
    /\ Agent.r_pages_source r' = Some src
    /\ same_rest r r'.

(** An extraction run only fills gaps. *)
Definition FillOnly {other} (r : Agent.result other)
           (out : outcome (Agent.result other)) (evs : list Agent.event)
  : Prop :=
  match out with
  | Raise => no_set evs
  | Ret r' => Untouched r r' evs \/ Filled r r' evs
  end.



(** The searcher registered as [name] finds [r] for the query; it finds
    nothing (also when no searcher has that name). *)
Definition finds {other} (searchers : str -> option (str -> option (Agent.result other)))
           (query name : str) (r : Agent.result other) : Prop :=
  exists s, searchers name = Some s /\ s query = Some r.

Definition finds_nothing {other}
           (searchers : str -> option (str -> option (Agent.result other)))
           (query name : str) : Prop :=
  forall s, searchers name = Some s -> s query = None.

(** The record a block of [_supplement_pages] leaves with. *)
Definition rec_of {other} (f : Agent.flow other) : Agent.result other :=
  match f with Agent.Return r => r | Agent.Continue r => r end.

Definition is_return {other} (f : Agent.flow other) : Prop :=
  match f with Agent.Return _ => True | Agent.Continue _ => False end.

(** What a block of the chain does to the record [r]: it appends [evs] to
    the trace; it leaves the pages as they were, or it fills them; a
    [strict] block returns as soon as it has filled them. *)
Definition BlockOK {other} (strict : bool) (r : Agent.result other)
           (m : Agent.prog (Agent.flow other)) : Prop :=
  forall log, exists evs,
    snd (m log) = log ++ evs
    /\ match fst (m log) with
       | Raise => no_set evs
       | Ret f =>
           Untouched r (rec_of f) evs
           \/ (Filled r (rec_of f) evs /\ (strict = true -> is_return f))
       end.

(** The characters a cleaned title is made of: word characters, the plain
    space, hyphen, colon, comma and period. *)
Definition title_char (c : ascii) : bool :=
  Titles.isword c
  || bool_decide (c = " "%char) || bool_decide (c = "-"%char)
  || bool_decide (c = ":"%char) || bool_decide (c = ","%char)
  || bool_decide (c = "."%char).

End Spec.

(** ** Sample inputs *)

Module Samples.

(** A world in which every extractor fails. *)
Definition offline : Agent.world :=
  {| Agent.doi2bib := fun _ => Raise;
     Agent.neurips := fun _ _ => Raise;
     Agent.dblp_page := fun _ _ => Raise;
     Agent.pmlr_page := fun _ _ => Raise;
     Agent.head_url := fun _ => Raise;
     Agent.llm_doi := fun _ _ => Raise;
     Agent.llm_url := fun _ _ => Raise |}.

(** A record with a title, a URL and, possibly, pages. *)
Definition paper (url : str) (pages : option str) : Agent.result unit :=
  {| Agent.r_title := Some (py "Attention Is All You Need");
     Agent.r_url := Some url;
     Agent.r_dblp_url := None;
     Agent.r_pdf_url := None;
     Agent.r_doi := None;
     Agent.r_pages := pages;
     Agent.r_pages_source := None;
     Agent.r_bibtex := None;
     Agent.r_other := tt |}.

(** One searcher, registered as dblp, that knows one paper. *)
Definition one_searcher (name : str)
  : option (str -> option (Agent.result unit)) :=
  if bool_decide (name = py "dblp")
  then Some (fun query =>
               if bool_decide (query = py "attention")
               then Some (paper (py "https://example.org/p") (Some (py "1-9")))
               else None)
  else None.

Definition a_hit (title : str) : Searcher.hit unit :=
  {| Searcher.hit_title := title; Searcher.hit_info := tt |}.

End Samples.

(** * Properties *)

(** ** Strings *)

Module PyStrFacts.
Import PyStr Spec.

Lemma digit_not_space c : isdigit c = true -> isspace c = false.
Proof.
  destruct c as [[] [] [] [] [] [] [] []]; vm_compute; congruence.
Qed.

Lemma digit_not_punct c : isdigit c = true -> ispunct c = false.
Proof.
  destruct c as [[] [] [] [] [] [] [] []]; vm_compute; congruence.
Qed.

Lemma lower_char_digit c : isdigit (lower_char c) = isdigit c.
Proof.
  destruct c as [[] [] [] [] [] [] [] []]; vm_compute; congruence.
Qed.

Lemma lower_char_idem c : lower_char (lower_char c) = lower_char c.
Proof.
  destruct c as [[] [] [] [] [] [] [] []]; vm_compute; congruence.
Qed.

Lemma lower_idem s : lower (lower s) = lower s.
Proof.
  unfold lower. rewrite map_map. apply map_ext. apply lower_char_idem.
Qed.

Section Runs.
Variable p : ascii -> bool.

Lemma runs_from_gap gap s :
  Forall (fun c => p c = false) gap ->
  runs_from p [] (gap ++ s) = runs_from p [] s.
Proof.
  induction 1 as [|c gap Hc _ IH]; simpl; [reflexivity|].
  now rewrite Hc.
Qed.

Lemma runs_from_run run cur s :
  Forall (fun c => p c = true) run ->
  runs_from p cur (run ++ s) = runs_from p (cur ++ run) s.
Proof.
  intros H. revert cur.
  induction H as [|c run Hc _ IH]; intros cur; simpl.
  - now rewrite app_nil_r.
  - rewrite Hc, IH, <- app_assoc. reflexivity.
Qed.

Lemma runs_from_stop cur rest :
  cur <> [] ->
  (forall c rest', rest = c :: rest' -> p c = false) ->
  runs_from p cur rest = cur :: runs_from p [] rest.
Proof.
  intros Hcur Hrest. destruct rest as [|c rest']; simpl.
  - destruct cur; congruence.
  - rewrite (Hrest c rest' eq_refl). destruct cur; congruence.
Qed.

Lemma MaximalRuns_gap c s rs :
  p c = false -> MaximalRuns p s rs -> MaximalRuns p (c :: s) rs.
Proof.
  intros Hc H. inversion H as [gap Hgap | gap run rest rs' Hgap Hne Hrun Hrest Hrs];
    subst.
  - constructor. now constructor.
  - change (c :: gap ++ run ++ rest) with ((c :: gap) ++ run ++ rest).
    constructor; auto.
Qed.

Lemma MaximalRuns_runs_from s :
  MaximalRuns p s (runs_from p [] s)
  /\ forall cur, cur <> [] -> Forall (fun c => p c = true) cur ->
                 MaximalRuns p (cur ++ s) (runs_from p cur s).
Proof.
  induction s as [|c s [IH0 IH1]]; split.
  - simpl. constructor. constructor.
  - intros cur Hne Hcur. simpl. destruct cur as [|a cur]; [congruence|].
    change ((a :: cur) ++ []) with ([] ++ (a :: cur) ++ []).
    constructor; auto; try discriminate. constructor. constructor.
  - simpl. destruct (p c) eqn:Hc.
    + apply (IH1 [c]); [discriminate|]. now repeat constructor.
    + now apply MaximalRuns_gap.
  - intros cur Hne Hcur. simpl. destruct (p c) eqn:Hc.
    + replace (cur ++ c :: s) with ((cur ++ [c]) ++ s)
        by now rewrite <- app_assoc.
      apply IH1.
      * destruct cur; discriminate.
      * apply Forall_app. split; [assumption|]. now repeat constructor.
    + destruct cur as [|a cur]; [congruence|].
      change ((a :: cur) ++ c :: s) with ([] ++ (a :: cur) ++ c :: s).
      constructor; auto.
      * intros c' rest' E. now inversion E; subst.
      * now apply MaximalRuns_gap.
Qed.

(** [runs] computes the maximal runs... *)
Lemma MaximalRuns_runs s : MaximalRuns p s (runs p s).
Proof. apply MaximalRuns_runs_from. Qed.

(** ...and they are the only ones. *)
Lemma MaximalRuns_unique s rs : MaximalRuns p s rs -> rs = runs p s.
Proof.
  unfold runs. induction 1 as [gap Hgap | gap run rest rs Hgap Hne Hrun Hrest _ IH].
  - rewrite <- (app_nil_r gap), runs_from_gap by assumption. reflexivity.
  - rewrite runs_from_gap, runs_from_run by assumption. simpl.
    rewrite runs_from_stop by assumption. now f_equal.
Qed.

Lemma runs_words_nonempty s w : w ∈ runs p s -> w <> [].
Proof.
  intros Hin. pose proof (MaximalRuns_runs s) as H.
  induction H as [|gap run rest rs _ Hne _ _ _ IH]; [inversion Hin|].
  apply elem_of_cons in Hin as [->|Hin]; auto.
Qed.

End Runs.

End PyStrFacts.

(** ** normalize_pages *)

Module PagesFacts.
Import PyStr Utils Spec PyStrFacts.

Lemma DropsLabel_refl s : DropsLabel s s.
Proof. exists []. split; [reflexivity | constructor]. Qed.

Lemma DropsLabel_trans s r t :
  DropsLabel s r -> DropsLabel r t -> DropsLabel s t.
Proof.
  intros (l1 & -> & H1) (l2 & -> & H2). exists (l1 ++ l2).
  split; [now rewrite <- app_assoc | now apply Forall_app].
Qed.

Lemma DropsLabel_cons c s r :
  isdigit c = false -> DropsLabel s r -> DropsLabel (c :: s) r.
Proof.
  intros Hc (l & -> & Hl). exists (c :: l). split; [reflexivity|].
  now constructor.
Qed.

Lemma DropsLabel_runs s r :
  DropsLabel s r -> findall_digits s = findall_digits r.
Proof.
  intros (l & -> & Hl). unfold findall_digits, runs.
  now apply runs_from_gap.
Qed.

Lemma ci_match_digit pat c :
  ci_match pat c = true -> isdigit pat = false -> isdigit c = false.
Proof.
  unfold ci_match. intros H Hp. apply bool_decide_eq_true in H.
  now rewrite <- lower_char_digit, H.
Qed.

Lemma eat_ci_drops lit : forall s r,
  digit_free lit -> eat_ci lit s = Some r -> DropsLabel s r.
Proof.
  induction lit as [|p lit IH]; intros s r Hlit H; simpl in H.
  - inversion H. apply DropsLabel_refl.
  - destruct s as [|c s]; [discriminate|].
    inversion Hlit as [|? ? Hp Hlit']; subst.
    destruct (ci_match p c) eqn:Hc; [|discriminate].
    apply DropsLabel_cons; eauto using ci_match_digit.
Qed.

Lemma eat_opt_ci_drops pat s :
  isdigit pat = false -> DropsLabel s (eat_opt_ci pat s).
Proof.
  intros Hp. destruct s as [|c s]; simpl; [apply DropsLabel_refl|].
  destruct (ci_match pat c) eqn:Hc; [|apply DropsLabel_refl].
  apply DropsLabel_cons; eauto using ci_match_digit, DropsLabel_refl.
Qed.

Lemma drop_while_drops q s :
  (forall c, q c = true -> isdigit c = false) ->
  DropsLabel s (Agent.drop_while q s).
Proof.
  intros Hq. induction s as [|c s IH]; simpl; [apply DropsLabel_refl|].
  destruct (q c) eqn:Hc; [|apply DropsLabel_refl].
  apply DropsLabel_cons; auto.
Qed.

Lemma lstrip_drops s : DropsLabel s (lstrip s).
Proof.
  induction s as [|c s IH]; simpl; [apply DropsLabel_refl|].
  destruct (isspace c) eqn:Hc; [|apply DropsLabel_refl].
  apply DropsLabel_cons; [|assumption].
  destruct (isdigit c) eqn:Hd; [|reflexivity].
  apply digit_not_space in Hd. congruence.
Qed.

(** The substitution of the source removes a prefix without digits. *)
Lemma sub_label_drops s : DropsLabel s (sub_label s).
Proof.
  unfold sub_label, match_label.
  destruct (eat_ci (py "page") s) as [r|] eqn:E1.
  - apply eat_ci_drops in E1; [|now repeat constructor].
    eapply DropsLabel_trans; [exact E1|].
    eapply DropsLabel_trans; [apply (eat_opt_ci_drops "s"); reflexivity|].
    apply lstrip_drops.
  - destruct (eat_ci (py "p") s) as [r|] eqn:E2; [|apply DropsLabel_refl].
    apply eat_ci_drops in E2; [|now repeat constructor].
    eapply DropsLabel_trans; [exact E2|].
    eapply DropsLabel_trans; [apply (eat_opt_ci_drops "p"); reflexivity|].
    eapply DropsLabel_trans; [apply (eat_opt_ci_drops "."); reflexivity|].
    apply lstrip_drops.
Qed.

Lemma startswith_lower_drops lit : forall s,
  digit_free lit -> startswith (lower s) lit = true ->
  DropsLabel s (drop (length lit) s).
Proof.
  induction lit as [|p lit IH]; intros s Hlit H; simpl.
  - apply DropsLabel_refl.
  - destruct s as [|c s]; simpl in H; [discriminate|].
    apply andb_true_iff in H as [Hc H].
    apply bool_decide_eq_true in Hc.
    inversion Hlit as [|? ? Hp Hlit']; subst.
    apply DropsLabel_cons; [|now apply IH].
    now rewrite <- lower_char_digit.
Qed.

(** So does the label of the specification. *)
Lemma strip_label_drops s : DropsLabel s (strip_label s).
Proof.
  assert (Htr : forall c, isspace c || ispunct c = true -> isdigit c = false).
  { intros c Hc. destruct (isdigit c) eqn:Hd; [|reflexivity].
    rewrite (digit_not_space _ Hd), (digit_not_punct _ Hd) in Hc.
    discriminate. }
  unfold strip_label.
  destruct (startswith (lower s) (py "pages")) eqn:E1.
  - eapply DropsLabel_trans;
      [apply (startswith_lower_drops (py "pages")); [now repeat constructor | exact E1]|].
    now apply drop_while_drops.
  - destruct (startswith (lower s) (py "pp.")) eqn:E2; [|apply DropsLabel_refl].
    eapply DropsLabel_trans;
      [apply (startswith_lower_drops (py "pp.")); [now repeat constructor | exact E2]|].
    now apply drop_while_drops.
Qed.

(** The label never matters: the result is read off the digit runs of the
    whole input. *)
Lemma normalize_pages_runs s :
  normalize_pages s = page_range (findall_digits s).
Proof.
  unfold normalize_pages. destruct s as [|c s]; [reflexivity|].
  simpl negb. cbv iota.
  rewrite <- (DropsLabel_runs _ _ (sub_label_drops (c :: s))).
  unfold page_range.
  destruct (findall_digits (sub_label (c :: s))) as [|n0 [|n1 ?]]; reflexivity.
Qed.

End PagesFacts.

(** C1. For every input string, normalize_pages returns what the
    specification describes: with the leading label ("pages", "pp.", any
    case, with its trailing punctuation and space) removed, the maximal digit
    runs [numbers] of the text, in order, give "{first}-{second}" when there
    are two or more, the single run when there is one, and nothing when there
    is none. The digit runs of the text after the substitution made by the
    source are the same ones. In particular "130136--130184" gives
    "130136-130184". *)
Theorem C1_normalize_pages :
  (forall s : str,
      exists numbers : list str,
        Spec.MaximalRuns PyStr.isdigit (Spec.strip_label s) numbers
        /\ Spec.MaximalRuns PyStr.isdigit (Utils.sub_label s) numbers
        /\ Utils.normalize_pages s = Spec.page_range numbers)
  /\ Utils.normalize_pages (py "130136--130184") = Some (py "130136-130184").
Proof.
  split; [|reflexivity].
  intros s. exists (PyStr.findall_digits s). repeat split.
  - rewrite (PagesFacts.DropsLabel_runs _ _ (PagesFacts.strip_label_drops s)).
    apply PyStrFacts.MaximalRuns_runs.
  - rewrite (PagesFacts.DropsLabel_runs _ _ (PagesFacts.sub_label_drops s)).
    apply PyStrFacts.MaximalRuns_runs.
  - apply PagesFacts.normalize_pages_runs.
Qed.

(** ** similarity_score *)

Module SimilarityFacts.
Import PyStr Utils Spec PyStrFacts.

Lemma Qltb_lt x y : Qltb x y = true <-> x < y.
Proof.
  unfold Qltb. rewrite negb_true_iff. split.
  - intros H. apply Qnot_le_lt. intros Hle.
    apply Qle_bool_iff in Hle. congruence.
  - intros H. destruct (Qle_bool y x) eqn:E; [|reflexivity].
    apply Qle_bool_iff in E. exfalso. exact (Qlt_not_le _ _ H E).
Qed.

Lemma Qltb_ge x y : Qltb x y = false <-> y <= x.
Proof.
  unfold Qltb. rewrite negb_false_iff. apply Qle_bool_iff.
Qed.

Lemma startswith_spec s prefix :
  startswith s prefix = true <-> exists post, s = prefix ++ post.
Proof.
  revert s. induction prefix as [|p prefix IH]; intros [|c s]; simpl.
  - split; [intros _; now exists [] | reflexivity].
  - split; [intros _; now exists (c :: s) | reflexivity].
  - split; [discriminate | intros [post H]; discriminate].
  - rewrite andb_true_iff, bool_decide_eq_true, IH. split.
    + intros [-> [post ->]]. now exists post.
    + intros [post H]. inversion H. split; [reflexivity | now exists post].
Qed.

(** [needle in hay] tests for a contiguous occurrence. *)
Lemma contains_spec hay needle :
  contains hay needle = true <-> Substring needle hay.
Proof.
  unfold Substring. induction hay as [|c hay IH]; cbn [contains].
  - rewrite orb_false_r, startswith_spec. split.
    + intros [post H]. now exists [], post.
    + intros (pre & post & H). destruct pre; [now exists post|discriminate].
  - rewrite orb_true_iff, startswith_spec, IH. split.
    + intros [[post H] | (pre & post & H)].
      * now exists [], post.
      * exists (c :: pre), post. now rewrite H.
    + intros (pre & post & H). destruct pre as [|c' pre].
      * left. now exists post.
      * right. inversion H. now exists pre, post.
Qed.

Lemma Substring_nonempty q t : Substring q t -> q <> t -> (0 < len t)%Z.
Proof.
  intros (pre & post & ->) Hne. unfold len.
  destruct pre as [|a pre]; simpl.
  - destruct post as [|b post]; [now rewrite app_nil_r in Hne|].
    rewrite length_app. simpl. lia.
  - lia.
Qed.

(** The score outside the exact match, in terms of the normalised
    strings. *)
Lemma similarity_score_unfold str1 str2 :
  similarity_score str1 str2 =
    let q := strip (lower str1) in
    let t := strip (lower str2) in
    if bool_decide (q = t) then 1.0
    else if contains t q then containment_score q t
    else match split q, split t with
         | [], _ | _, [] => 0.0
         | _, _ => word_score (split q) (split t)
         end.
Proof. reflexivity. Qed.

End SimilarityFacts.

(** C2. With both inputs lower-cased and trimmed ([q] the query, [t] the
    title): if they are equal the score is exactly 1.0; if they differ and
    [q] occurs in [t], then with [delta] the number of words of [t] minus
    that of [q] and [ratio] the length of [q] over the length of [t], the
    score is 0.98 when [delta] is 0, otherwise 0.95 when [delta <= 1] and
    [ratio > 0.8], otherwise 0.85 when [delta <= 2] and [ratio > 0.7],
    otherwise 0.75 when [delta <= 3], and 0.60 when [delta > 3]. The query
    "BERT" against the full title of the BERT paper scores 0.60. *)
Theorem C2_similarity_exact_and_containment :
  (forall query title : str,
      let q := PyStr.strip (PyStr.lower query) in
      let t := PyStr.strip (PyStr.lower title) in
      let score := Utils.similarity_score query title in
      (q = t -> score = 1.0)
      /\ (q <> t -> Spec.Substring q t ->
          exists qwords twords : list str,
            Spec.MaximalRuns Spec.is_word_char q qwords
            /\ Spec.MaximalRuns Spec.is_word_char t twords
            /\ let delta := (Utils.len twords - Utils.len qwords)%Z in
               let ratio := inject_Z (Utils.len q) / inject_Z (Utils.len t) in
               (delta = 0%Z -> score = 0.98)
               /\ (delta <> 0%Z -> (delta <= 1)%Z -> 0.8 < ratio ->
                   score = 0.95)
               /\ (delta <> 0%Z -> ~ ((delta <= 1)%Z /\ 0.8 < ratio) ->
                   (delta <= 2)%Z -> 0.7 < ratio -> score = 0.85)
               /\ (delta <> 0%Z -> ~ ((delta <= 1)%Z /\ 0.8 < ratio) ->
                   ~ ((delta <= 2)%Z /\ 0.7 < ratio) -> (delta <= 3)%Z ->
                   score = 0.75)
               /\ ((3 < delta)%Z -> score = 0.6)))
  /\ Utils.similarity_score
       (py "BERT")
       (py "BERT: Pre-training of Deep Bidirectional Transformers for Language Understanding")
     = 0.6.
Proof.
  split; [|reflexivity].
  intros query title q t score. split.
  - intros E. unfold score. rewrite SimilarityFacts.similarity_score_unfold.
    cbv zeta. fold q t. now rewrite bool_decide_eq_true_2.
  - intros Hne Hsub.
    exists (PyStr.split q), (PyStr.split t).
    split; [apply PyStrFacts.MaximalRuns_runs|].
    split; [apply PyStrFacts.MaximalRuns_runs|].
    intros delta ratio.
    assert (Hscore : score = Utils.containment_score q t).
    { unfold score. rewrite SimilarityFacts.similarity_score_unfold.
      cbv zeta. fold q t. rewrite bool_decide_eq_false_2 by assumption.
      apply SimilarityFacts.contains_spec in Hsub. now rewrite Hsub. }
    rewrite Hscore. unfold Utils.containment_score.
    pose proof (SimilarityFacts.Substring_nonempty _ _ Hsub Hne) as Hlen.
    apply Z.ltb_lt in Hlen. rewrite Hlen.
    fold delta. unfold Utils.true_div. fold ratio.
    destruct (Z.eqb_spec delta 0) as [E0|E0];
      [repeat split; intros; (reflexivity || lia)|].
    destruct (Z.leb_spec delta 1) as [L1|L1];
      destruct (Utils.Qltb 0.8 ratio) eqn:R1;
      destruct (Z.leb_spec delta 2) as [L2|L2];
      destruct (Utils.Qltb 0.7 ratio) eqn:R2;
      destruct (Z.leb_spec delta 3) as [L3|L3];
      try apply SimilarityFacts.Qltb_lt in R1;
      try apply SimilarityFacts.Qltb_ge in R1;
      try apply SimilarityFacts.Qltb_lt in R2;
      try apply SimilarityFacts.Qltb_ge in R2;
      simpl; repeat split; intros;
        try reflexivity; try lia;
        try (exfalso;
             match goal with
             | H1 : ?a < ?b, H2 : ?b <= ?a |- _ => exact (Qlt_not_le _ _ H1 H2)
             end);
        try (exfalso; match goal with H : ~ _ |- _ => apply H; split; assumption end).
Qed.

Lemma C2_witness :
  Utils.similarity_score (py "Attention is All You Need")
                         (py " attention is all you need ") = 1.0.
Proof.
  apply (proj1 (proj1 C2_similarity_exact_and_containment
                      (py "Attention is All You Need")
                      (py " attention is all you need "))).
  reflexivity.
Defined.

Module OrderFacts.
Import PyStr Utils Spec.

Lemma index_Some l w i : index l w = Some i -> FirstAt l w i.
Proof.
  revert i. induction l as [|x l IH]; intros i H; simpl in H; [discriminate|].
  destruct (bool_decide (x = w)) eqn:E.
  - apply bool_decide_eq_true in E. inversion H. subst. split; [reflexivity|].
    intros j Hj. lia.
  - apply bool_decide_eq_false in E.
    destruct (index l w) as [k|] eqn:Ek; [|discriminate].
    inversion H. subst. destruct (IH k eq_refl) as [Hk Hmin]. split.
    + exact Hk.
    + intros [|j] Hj; simpl; [congruence|]. apply Hmin. lia.
Qed.

Lemma index_elem l w : w ∈ l -> is_Some (index l w).
Proof.
  induction 1 as [w l | w x l _ IH]; simpl.
  - rewrite bool_decide_eq_true_2 by reflexivity. eauto.
  - destruct (bool_decide (x = w)); [eauto|].
    destruct IH as [k ->]. simpl. eauto.
Qed.

Lemma FirstAt_unique l w i j : FirstAt l w i -> FirstAt l w j -> i = j.
Proof.
  intros [Hi Hmi] [Hj Hmj].
  destruct (Nat.lt_trichotomy i j) as [H|[H|H]]; [|assumption|].
  - now apply Hmj in H.
  - now apply Hmi in H.
Qed.

Lemma mapM_index l ws :
  Forall (fun w => w ∈ l) ws ->
  exists ps, mapM (index l) ws = Some ps /\ Forall2 (FirstAt l) ws ps.
Proof.
  induction 1 as [|w ws Hw _ (ps & E & F)].
  - exists []. split; [reflexivity | constructor].
  - destruct (index_elem _ _ Hw) as [i Hi]. exists (i :: ps). split.
    + simpl. rewrite Hi. simpl. rewrite E. reflexivity.
    + constructor; [now apply index_Some | assumption].
Qed.

Lemma is_ordered_spec l : is_ordered l = true <-> StrictlyIncreasing l.
Proof.
  unfold StrictlyIncreasing. induction l as [|a l IH].
  - split; [|reflexivity]. intros _ i j x y _ H. discriminate.
  - destruct l as [|b l].
    + split; [|reflexivity]. intros _ [|i] [|j] x y Hij Hi Hj; try lia;
        discriminate.
    + change (is_ordered (a :: b :: l)) with ((a <? b)%nat && is_ordered (b :: l)).
      rewrite andb_true_iff, Nat.ltb_lt, IH. split.
      * intros [Hab Hl] i j x y Hij Hi Hj.
        destruct i as [|i]; destruct j as [|j]; try lia; simpl in Hi, Hj.
        -- inversion Hi; subst. destruct j as [|j]; simpl in Hj.
           ++ inversion Hj; subst. assumption.
           ++ assert (b < y)%nat; [|lia].
              apply (Hl 0%nat (S j)); [lia|reflexivity|exact Hj].
        -- apply (Hl i j); [lia|assumption|assumption].
      * intros H. split.
        -- apply (H 0%nat 1%nat); [lia|reflexivity|reflexivity].
        -- intros i j x y Hij Hi Hj. apply (H (S i) (S j)); [lia|assumption|assumption].
Qed.

(** The query words found in the title, in query order, and the title
    words found in the query. *)
Lemma shared_elem (words1 words2 : list str) w :
  w ∈ filter (fun w => w ∈ (list_to_set words2 : gset str)) words1 ->
  w ∈ filter (fun w => w ∈ (list_to_set words1 : gset str)) words2.
Proof.
  rewrite !list_elem_of_filter, !elem_of_list_to_set. tauto.
Qed.

Lemma filter_all {A} (P : A -> Prop) `{!forall x, Decision (P x)} (l : list A) :
  Forall P l -> filter P l = l.
Proof.
  induction 1 as [|x l Hx _ IH]; [reflexivity|].
  rewrite filter_cons_True by assumption. now f_equal.
Qed.

Lemma size_pos_elem (X : gset str) (w : str) : w ∈ X -> (0 < size X)%nat.
Proof.
  intros H. destruct (size X) eqn:E; [|lia].
  apply size_empty_inv in E. apply E in H.
  now apply not_elem_of_empty in H.
Qed.

Lemma shared_size (words1 words2 : list str) :
  filter (fun w => w ∈ (list_to_set words2 : gset str)) words1 <> [] ->
  (0 < size ((list_to_set words1 : gset str) ∩ list_to_set words2))%nat.
Proof.
  intros Hne.
  destruct (filter _ words1) as [|w l] eqn:E; [congruence|].
  assert (Hw : w ∈ filter (fun w => w ∈ (list_to_set words2 : gset str)) words1)
    by (rewrite E; left).
  apply list_elem_of_filter in Hw as [Hw2 Hw1].
  assert (Hin : w ∈ (list_to_set words1 : gset str) ∩ list_to_set words2)
    by (apply elem_of_intersection; split; [now apply elem_of_list_to_set | assumption]).
  exact (size_pos_elem _ _ Hin).
Qed.

(** What [order_score] computes. *)
Lemma order_score_spec (words1 words2 : list str) :
  let shared1 := filter (fun w => w ∈ (list_to_set words2 : gset str)) words1 in
  let shared2 := filter (fun w => w ∈ (list_to_set words1 : gset str)) words2 in
  exists positions,
    Forall2 (FirstAt shared2) shared1 positions
    /\ order_score words1 words2 =
         if (1 <? length shared1)%nat
         then if is_ordered positions then 0.3 else 0.1
         else 0.0.
Proof.
  intros shared1 shared2.
  assert (Hall : Forall (fun w => w ∈ shared2) shared1).
  { apply Forall_forall. intros w Hw. now apply shared_elem. }
  destruct (mapM_index shared2 shared1 Hall) as (ps & Hps & HF).
  exists ps. split; [assumption|].
  unfold order_score. fold shared1 shared2.
  destruct (1 <? length shared1)%nat eqn:E1.
  - assert (Hne : shared1 <> []).
    { intros E. rewrite E in E1. discriminate. }
    apply shared_size in Hne. apply Nat.ltb_lt in Hne. rewrite Hne.
    rewrite (filter_all _ _ Hall), Hps.
    rewrite <- (Forall2_length _ _ _ HF), E1. reflexivity.
  - now destruct (0 <? size _)%nat.
Qed.

End OrderFacts.

(** C3 (as amended). In the word-set branch (the normalised query [q] is
    neither equal to nor a piece of the normalised title [t]) with both word
    lists non-empty, the score is
    0.5 * coverage + 0.3 * Jaccard + 0.15 * length-similarity + 0.05 * bonus,
    multiplied by 1.1 and capped at 1.0 when coverage >= 1.  The bonus is
    read off the query words found in the title ([shared1], in query order,
    repetitions kept) and the first position of each among the title words
    found in the query ([shared2]): it is 0 when [shared1] has fewer than two
    words, 0.3 when it has two or more and the positions increase strictly,
    and 0.1 when it has two or more and they do not. *)
Theorem C3_word_set_score :
  forall query title : str,
    let q := PyStr.strip (PyStr.lower query) in
    let t := PyStr.strip (PyStr.lower title) in
    let words1 := PyStr.split q in
    let words2 := PyStr.split t in
    q <> t -> ~ Spec.Substring q t -> words1 <> [] -> words2 <> [] ->
    let QW : gset str := list_to_set words1 in
    let TW : gset str := list_to_set words2 in
    let coverage :=
      inject_Z (Z.of_nat (size (QW ∩ TW))) / inject_Z (Z.of_nat (size QW)) in
    let jaccard :=
      inject_Z (Z.of_nat (size (QW ∩ TW))) / inject_Z (Z.of_nat (size (QW ∪ TW))) in
    let length_similarity :=
      1 - inject_Z (Z.abs (Utils.len words1 - Utils.len words2))
          / inject_Z (Z.max (Utils.len words1) (Utils.len words2)) in
    let shared1 := filter (fun w => w ∈ TW) words1 in
    let shared2 := filter (fun w => w ∈ QW) words2 in
    exists (positions : list nat) (bonus : Q),
      Forall2 (Spec.FirstAt shared2) shared1 positions
      /\ ((length shared1 <= 1)%nat -> bonus = 0.0)
      /\ ((2 <= length shared1)%nat -> Spec.StrictlyIncreasing positions ->
          bonus = 0.3)
      /\ ((2 <= length shared1)%nat -> ~ Spec.StrictlyIncreasing positions ->
          bonus = 0.1)
      /\ let combined :=
           0.5 * coverage + 0.3 * jaccard + 0.15 * length_similarity
           + 0.05 * bonus in
         (coverage < 1 -> Utils.similarity_score query title == combined)
         /\ (1 <= coverage ->
             Utils.similarity_score query title == Qmin 1.0 (combined * 1.1)).
Proof.
  intros query title q t words1 words2 Hne Hsub Hw1 Hw2 QW TW
         coverage jaccard length_similarity shared1 shared2.
  destruct (OrderFacts.order_score_spec words1 words2) as (positions & HF & Hord).
  exists positions, (Utils.order_score words1 words2).
  split; [exact HF|].
  fold QW TW shared1 in Hord.
  split; [|split; [|split]].
  - intros Hlen. rewrite Hord.
    destruct (Nat.ltb_spec 1 (length shared1)); [lia | reflexivity].
  - intros Hlen Hinc. rewrite Hord.
    destruct (Nat.ltb_spec 1 (length shared1)); [|lia].
    apply OrderFacts.is_ordered_spec in Hinc. now rewrite Hinc.
  - intros Hlen Hinc. rewrite Hord.
    destruct (Nat.ltb_spec 1 (length shared1)); [|lia].
    destruct (Utils.is_ordered positions) eqn:E; [|reflexivity].
    apply OrderFacts.is_ordered_spec in E. contradiction.
  - assert (Hscore : Utils.similarity_score query title
                     = Utils.word_score words1 words2).
    { rewrite SimilarityFacts.similarity_score_unfold. cbv zeta. fold q t.
      rewrite bool_decide_eq_false_2 by assumption.
      destruct (PyStr.contains t q) eqn:Ec.
      - apply SimilarityFacts.contains_spec in Ec. contradiction.
      - fold words1 words2.
        destruct words1; [congruence|]. destruct words2; [congruence|].
        reflexivity. }
    assert (HQ : (0 < Z.of_nat (size QW))%Z).
    { destruct words1 as [|w ws]; [congruence|].
      assert (Hw : w ∈ QW) by (apply elem_of_list_to_set; left).
      apply OrderFacts.size_pos_elem in Hw. lia. }
    assert (HU : (0 < Z.of_nat (size (QW ∪ TW)))%Z).
    { assert (size QW <= size (QW ∪ TW))%nat
        by (apply subseteq_size; set_solver). lia. }
    assert (HM : (0 < Z.max (Utils.len words1) (Utils.len words2))%Z).
    { unfold Utils.len. destruct words1; [congruence|]. simpl length. lia. }
    cbv zeta. rewrite Hscore. unfold Utils.word_score. fold QW TW.
    apply Z.ltb_lt in HQ, HU, HM. rewrite HQ, HU, HM.
    unfold Utils.true_div. fold coverage jaccard.
    split.
    + intros Hcov.
      destruct (Qle_bool 1.0 coverage) eqn:E.
      * apply Qle_bool_iff in E. exfalso.
        apply (Qlt_not_le _ _ Hcov). lra.
      * unfold length_similarity. ring.
    + intros Hcov.
      destruct (Qle_bool 1.0 coverage) eqn:E.
      * apply Q.min_compat; [reflexivity|].
        unfold length_similarity. ring.
      * exfalso. assert (1.0 <= coverage) as H by lra.
        apply Qle_bool_iff in H. congruence.
Qed.

Lemma C3_witness :
  Utils.similarity_score (py "a b c") (py "a x b") == 389 # 600.
Proof.
  destruct (C3_word_set_score (py "a b c") (py "a x b"))
    as (positions & bonus & HF & _ & Hinc & _ & Hlt & _).
  - vm_compute. congruence.
  - intros H. apply SimilarityFacts.contains_spec in H. vm_compute in H.
    congruence.
  - vm_compute. congruence.
  - vm_compute. congruence.
  - assert (Hpos : positions = [0%nat; 1%nat]).
    { match type of HF with
      | Forall2 (Spec.FirstAt ?s2) ?s1 _ =>
          replace s2 with [py "a"; py "b"] in HF by (vm_compute; reflexivity);
          replace s1 with [py "a"; py "b"] in HF by (vm_compute; reflexivity)
      end.
      assert (Ha : Spec.FirstAt [py "a"; py "b"] (py "a") 0).
      { split; [reflexivity|]. intros j Hj. lia. }
      assert (Hb : Spec.FirstAt [py "a"; py "b"] (py "b") 1).
      { split; [reflexivity|]. intros [|j] Hj; [discriminate | lia]. }
      inversion HF as [|? i ? ps1 Hi HF1]; subst.
      inversion HF1 as [|? j ? ps2 Hj HF2]; subst.
      inversion HF2; subst.
      rewrite (OrderFacts.FirstAt_unique _ _ _ _ Hi Ha).
      rewrite (OrderFacts.FirstAt_unique _ _ _ _ Hj Hb).
      reflexivity. }
    assert (Hb : bonus = 0.3).
    { apply Hinc; [vm_compute; lia|]. rewrite Hpos.
      apply OrderFacts.is_ordered_spec. reflexivity. }
    rewrite Hlt; [|vm_compute; reflexivity].
    rewrite Hb. vm_compute. reflexivity.
Defined.

(** C3, the statement as written fails: "a b" against "a c" share the word
    "a" (alone, so in the same order in both), the claimed bonus is 0.3, and
    the score is the combination with bonus 0: it differs from the
    combination with bonus 0.3 and from that with bonus 0.1. *)
Lemma C3_counterexample :
  let words1 := PyStr.split (PyStr.strip (PyStr.lower (py "a b"))) in
  let words2 := PyStr.split (PyStr.strip (PyStr.lower (py "a c"))) in
  let score := Utils.similarity_score (py "a b") (py "a c") in
  (py "a" ∈ words1 /\ py "a" ∈ words2)
  /\ Spec.claimed_order_bonus words1 words2 = 0.3
  /\ score == 0.5 * (1 # 2) + 0.3 * (1 # 3) + 0.15 * 1 + 0.05 * 0
  /\ ~ score == 0.5 * (1 # 2) + 0.3 * (1 # 3) + 0.15 * 1 + 0.05 * 0.3
  /\ ~ score == 0.5 * (1 # 2) + 0.3 * (1 # 3) + 0.15 * 1 + 0.05 * 0.1.
Proof.
  cbv zeta. split; [split|split; [|split; [|split]]].
  - vm_compute. left.
  - vm_compute. left.
  - vm_compute. reflexivity.
  - vm_compute. reflexivity.
  - vm_compute. discriminate.
  - vm_compute. discriminate.
Qed.

Module RangeFacts.
Import PyStr Utils Spec.

Lemma true_div_range a b :
  (0 <= a <= b)%Z -> (0 < b)%Z -> 0 <= true_div a b <= 1.
Proof.
  intros [Ha Hab] Hb. unfold true_div.
  assert (0 < inject_Z b)
    by (change 0 with (inject_Z 0); now rewrite <- Zlt_Qlt).
  split.
  - apply Qle_shift_div_l; [assumption|]. rewrite Qmult_0_l.
    change 0 with (inject_Z 0). now rewrite <- Zle_Qle.
  - apply Qle_shift_div_r; [assumption|]. rewrite Qmult_1_l.
    now rewrite <- Zle_Qle.
Qed.

Lemma order_score_range words1 words2 :
  0 <= order_score words1 words2 <= 0.3.
Proof.
  unfold order_score.
  repeat match goal with
         | |- context [if ?b then _ else _] => destruct b
         | |- context [match ?o with Some _ => _ | None => _ end] => destruct o
         end; split; discriminate.
Qed.

Lemma word_score_range words1 words2 :
  0 <= word_score words1 words2 <= 1.
Proof.
  unfold word_score.
  set (set1 := list_to_set words1 : gset str).
  set (set2 := list_to_set words2 : gset str).
  set (inter := Z.of_nat (size (set1 ∩ set2))).
  assert (Hi1 : (0 <= inter <= Z.of_nat (size set1))%Z).
  { assert (size (set1 ∩ set2) <= size set1)%nat
      by (apply subseteq_size, intersection_subseteq_l).
    unfold inter. lia. }
  assert (Hiu : (0 <= inter <= Z.of_nat (size (set1 ∪ set2)))%Z).
  { assert (size (set1 ∩ set2) <= size (set1 ∪ set2))%nat.
    { apply subseteq_size. intros x Hx.
      apply elem_of_intersection in Hx as [Hx _].
      apply elem_of_union. now left. }
    unfold inter. lia. }
  set (jaccard := if (0 <? Z.of_nat (size (set1 ∪ set2)))%Z then _ else 0.0).
  set (coverage := if (0 <? Z.of_nat (size set1))%Z then _ else 0.0).
  set (length_score := if (0 <? Z.max (len words1) (len words2))%Z then _ else 0.0).
  assert (Hj : 0 <= jaccard <= 1).
  { unfold jaccard. destruct (Z.ltb_spec 0 (Z.of_nat (size (set1 ∪ set2)))).
    - now apply true_div_range.
    - split; discriminate. }
  assert (Hc : 0 <= coverage <= 1).
  { unfold coverage. destruct (Z.ltb_spec 0 (Z.of_nat (size set1))).
    - now apply true_div_range.
    - split; discriminate. }
  assert (Hl : 0 <= length_score <= 1).
  { unfold length_score.
    destruct (Z.ltb_spec 0 (Z.max (len words1) (len words2))) as [Hm|Hm].
    - assert (Hd : 0 <= true_div (Z.abs (len words1 - len words2))
                                 (Z.max (len words1) (len words2)) <= 1).
      { apply true_div_range; [|assumption]. unfold len. lia. }
      destruct Hd. split; lra.
    - split; discriminate. }
  pose proof (order_score_range words1 words2) as Ho.
  destruct Hj, Hc, Hl, Ho.
  destruct (Qle_bool 1.0 coverage).
  - split.
    + apply Q.min_glb; lra.
    + apply (Qle_trans _ 1.0); [apply Q.le_min_l | discriminate].
  - split; lra.
Qed.

Lemma containment_score_range str1 str2 :
  0 <= containment_score str1 str2 <= 1.
Proof.
  unfold containment_score.
  repeat match goal with
         | |- context [if ?b then _ else _] => destruct b
         end; split; discriminate.
Qed.

End RangeFacts.

(** C10. For every pair of strings, similarity_score lies in the closed
    interval from 0 to 1. *)
Theorem C10_similarity_score_range :
  forall str1 str2 : str,
    0 <= Utils.similarity_score str1 str2 <= 1.
Proof.
  intros str1 str2. rewrite SimilarityFacts.similarity_score_unfold. cbv zeta.
  destruct (bool_decide _); [split; discriminate|].
  destruct (PyStr.contains _ _); [apply RangeFacts.containment_score_range|].
  destruct (PyStr.split (PyStr.strip (PyStr.lower str1))) eqn:E1;
    [split; discriminate|].
  destruct (PyStr.split (PyStr.strip (PyStr.lower str2))) eqn:E2;
    [split; discriminate|].
  apply RangeFacts.word_score_range.
Qed.

(** ** The source clients *)

Module SearcherFacts.
Import PyStr Utils Spec Searcher SimilarityFacts.

Section Best.
Context {raw : Type}.
Implicit Types (papers : list (hit raw)) (query : str).

(** The loop keeps the first hit of highest score, when that score is
    positive. *)
Lemma best_of_from query papers (acc : option (hit raw) * Q) :
  let res := fold_left (best_step query) papers acc in
  snd acc <= snd res
  /\ (forall h, h ∈ papers -> similarity_score query (hit_title h) <= snd res)
  /\ (res = acc
      \/ exists h, h ∈ papers /\ res = (Some h, similarity_score query (hit_title h))).
Proof.
  revert acc. induction papers as [|p papers IH]; intros acc; simpl.
  - split; [apply Qle_refl|]. split; [|now left].
    intros h Hh. inversion Hh.
  - destruct (IH (best_step query acc p)) as (Hle & Hall & Hres).
    assert (Hstep : snd acc <= snd (best_step query acc p)
                    /\ similarity_score query (hit_title p)
                       <= snd (best_step query acc p)).
    { unfold best_step.
      destruct (Qltb (snd acc) (similarity_score query (hit_title p))) eqn:E.
      - apply Qltb_lt in E. simpl. split; [now apply Qlt_le_weak | apply Qle_refl].
      - apply Qltb_ge in E. split; [apply Qle_refl | assumption]. }
    destruct Hstep as [Hs1 Hs2].
    split; [eapply Qle_trans; eassumption|]. split.
    + intros h Hh. apply elem_of_cons in Hh as [->|Hh]; [|now apply Hall].
      eapply Qle_trans; eassumption.
    + destruct Hres as [Hres | (h & Hh & Hres)].
      * rewrite Hres. unfold best_step.
        destruct (Qltb (snd acc) (similarity_score query (hit_title p))).
        -- right. exists p. split; [left | reflexivity].
        -- now left.
      * right. exists h. split; [now right | assumption].
Qed.

Lemma best_of_spec query papers best_match best_score :
  best_of query papers = (best_match, best_score) ->
  0.3 <= best_score ->
  exists h, best_match = Some h /\ h ∈ papers
            /\ best_score = similarity_score query (hit_title h)
            /\ forall h', h' ∈ papers ->
                          similarity_score query (hit_title h') <= best_score.
Proof.
  intros E Hthr. unfold best_of in E.
  destruct (best_of_from query papers (None, 0.0)) as (_ & Hall & Hres).
  rewrite E in Hall, Hres. simpl in Hall.
  destruct Hres as [Hres | (h & Hh & Hres)].
  - inversion Hres; subst. exfalso. apply Hthr. reflexivity.
  - inversion Hres; subst. exists h. repeat split; assumption.
Qed.

(** *** The sort *)

Lemma insert_desc_perm (x : candidate raw) l : insert_desc x l ≡ₚ x :: l.
Proof.
  induction l as [|y l IH]; simpl; [reflexivity|].
  destruct (Qltb (score x) (score y)); [|reflexivity].
  rewrite IH. apply Permutation_swap.
Qed.

Lemma sort_desc_perm (l : list (candidate raw)) : sort_desc l ≡ₚ l.
Proof.
  induction l as [|x l IH]; simpl; [reflexivity|].
  rewrite insert_desc_perm. now constructor.
Qed.

Lemma insert_desc_sorted (x : candidate raw) l :
  StronglySorted by_score_desc l -> StronglySorted by_score_desc (insert_desc x l).
Proof.
  induction 1 as [|y l Hl IH Hy]; simpl.
  - repeat constructor.
  - destruct (Qltb (score x) (score y)) eqn:E.
    + apply Qltb_lt in E. constructor; [assumption|].
      rewrite insert_desc_perm. constructor; [|assumption].
      now apply Qlt_le_weak.
    + apply Qltb_ge in E. constructor; [now constructor|].
      constructor; [assumption|].
      eapply Forall_impl; [exact Hy|]. intros z Hz. unfold by_score_desc in *.
      eapply Qle_trans; eassumption.
Qed.

Lemma sort_desc_sorted (l : list (candidate raw)) :
  StronglySorted by_score_desc (sort_desc l).
Proof.
  induction l as [|x l IH]; simpl; [constructor|].
  now apply insert_desc_sorted.
Qed.

(** *** The tie-break *)

Lemma Qdiv_ge_1 (a b : Z) :
  (0 < b)%Z -> (1.0 <= inject_Z a / inject_Z b <-> (b <= a)%Z).
Proof.
  intros Hb.
  assert (Hb' : 0 < inject_Z b)
    by (change 0 with (inject_Z 0); now rewrite <- Zlt_Qlt).
  split.
  - intros H. destruct (Z_le_gt_dec b a) as [|Hlt]; [assumption|]. exfalso.
    assert (Hq : inject_Z a / inject_Z b < 1).
    { apply Qlt_shift_div_r; [assumption|]. rewrite Qmult_1_l.
      rewrite <- Zlt_Qlt. lia. }
    apply (Qlt_not_le _ _ Hq). eapply Qle_trans; [|exact H]. discriminate.
  - intros H. apply Qle_shift_div_l; [assumption|].
    apply (Qle_trans _ (inject_Z b)).
    + assert (E : 1.0 * inject_Z b == inject_Z b) by ring. rewrite E.
      apply Qle_refl.
    + now rewrite <- Zle_Qle.
Qed.

Lemma covers_spec query (cand : candidate raw) :
  let QW : gset str := list_to_set (split (lower query)) in
  let TW : gset str := list_to_set (split (lower (title cand))) in
  covers query cand = true <-> QW <> ∅ /\ QW ⊆ TW.
Proof.
  intros QW TW. unfold covers. fold QW TW.
  destruct (Nat.ltb_spec 0 (size QW)) as [Hpos|Hzero].
  - rewrite Qle_bool_iff. unfold true_div. rewrite Qdiv_ge_1 by lia.
    split.
    + intros Hsz. split.
      * intros E. rewrite E, size_empty in Hpos. lia.
      * assert (Heq : QW ∩ TW = QW).
        { apply set_subseteq_size_eq; [apply intersection_subseteq_l | lia]. }
        intros x Hx. rewrite <- Heq in Hx.
        now apply elem_of_intersection in Hx.
    + intros [_ Hsub].
      assert (size QW <= size (QW ∩ TW))%nat; [|lia].
      apply subseteq_size. intros x Hx. apply elem_of_intersection. auto.
  - split; [discriminate|]. intros [Hne _]. exfalso. apply Hne.
    apply leibniz_equiv, size_empty_inv. lia.
Qed.

Lemma tie_break_step_spec query (best cand : candidate raw) :
  (Promotes query best cand -> tie_break_step query best cand = cand)
  /\ (~ Promotes query best cand -> tie_break_step query best cand = best).
Proof.
  unfold Promotes, tie_break_step.
  destruct (Qltb (score best - score cand) 0.05) eqn:E1.
  - apply Qltb_lt in E1.
    destruct (Z.ltb_spec (word_diff cand) (word_diff best)) as [E2|E2].
    + destruct (covers query cand) eqn:E3.
      * split; [reflexivity|]. intros H. exfalso. apply H.
        apply covers_spec in E3. tauto.
      * split; [|reflexivity]. intros (_ & _ & H).
        apply covers_spec in H. congruence.
    + split; [|reflexivity]. intros (_ & H & _). lia.
  - apply Qltb_ge in E1. split; [|reflexivity]. intros (H & _). exfalso.
    exact (Qlt_not_le _ _ H E1).
Qed.

Lemma tie_break_elem query (first : candidate raw) others :
  tie_break query first others ∈ first :: take 2 others.
Proof.
  unfold tie_break. generalize (take 2 others). intros l. revert first.
  induction l as [|c l IH]; intros first; simpl; [left|].
  assert (Hstep : tie_break_step query first c = first
                  \/ tie_break_step query first c = c).
  { unfold tie_break_step.
    repeat match goal with |- context [if ?b then _ else _] => destruct b end;
      auto. }
  specialize (IH (tie_break_step query first c)).
  apply elem_of_cons in IH as [IH|IH].
  - rewrite IH. destruct Hstep as [-> | ->]; [left | right; left].
  - right. now right.
Qed.

End Best.

End SearcherFacts.

Module ThresholdFacts.
Import PyStr Utils Spec Searcher SimilarityFacts SearcherFacts.

Section Threshold.
Context {raw record : Type} (parse : client -> raw -> outcome record).

Lemma threshold_search_max (c : client) query reply r :
  c <> DBLP ->
  threshold_search parse c query reply = Some r ->
  exists hits m, reply = Ret hits /\ IsMaxScore c query hits m /\ 0.3 <= m.
Proof.
  intros Hc H. unfold threshold_search in H.
  destruct reply as [|papers]; [discriminate|].
  destruct papers as [|p papers]; [discriminate|].
  destruct (best_of query (p :: papers)) as [best_match best_score] eqn:E.
  destruct (Qltb best_score 0.3) eqn:Ethr; [discriminate|].
  apply Qltb_ge in Ethr.
  destruct (best_of_spec _ _ _ _ E Ethr) as (h & -> & Hh & Hs & Hmax).
  exists (p :: papers), best_score. split; [reflexivity|].
  assert (Hfs : forall h' : hit raw,
             final_score c query h' = similarity_score query (hit_title h'))
    by (intros h'; destruct c; (reflexivity || congruence)).
  split; [split|assumption].
  - exists h. split; [assumption|]. now rewrite Hfs.
  - intros h' Hh'. rewrite Hfs. now apply Hmax.
Qed.

Lemma dblp_select_max query (hits : list (hit raw)) best :
  dblp_select query hits = Some best ->
  0.3 <= score best ->
  exists m, IsMaxScore DBLP query hits m /\ score best <= m.
Proof.
  unfold dblp_select. intros H Hthr.
  destruct (sort_desc (dblp_candidates query hits)) as [|first others] eqn:E;
    [discriminate|].
  inversion H as [Hbest]. clear H.
  pose proof (sort_desc_perm (dblp_candidates query hits)) as Hperm.
  pose proof (sort_desc_sorted (dblp_candidates query hits)) as Hsorted.
  rewrite E in Hperm, Hsorted.
  apply StronglySorted_inv in Hsorted as [_ Hfirst].
  assert (Hle : forall c, c ∈ first :: others -> score c <= score first).
  { intros c Hc. apply elem_of_cons in Hc as [->|Hc]; [apply Qle_refl|].
    rewrite Forall_forall in Hfirst. now apply Hfirst. }
  assert (Hbf : score best <= score first).
  { apply Hle. rewrite <- Hbest.
    pose proof (tie_break_elem query first others) as Hin.
    apply elem_of_cons in Hin as [->|Hin]; [left|].
    right. revert Hin. generalize (tie_break query first others).
    intros x Hx. rewrite <- (take_drop 2 others). apply elem_of_app.
    now left. }
  exists (score first). split; [split | now rewrite Hbest].
  - assert (Hin : first ∈ dblp_candidates query hits)
      by (rewrite <- Hperm; left).
    unfold dblp_candidates in Hin.
    apply list_elem_of_filter in Hin as [_ Hin].
    apply list_elem_of_fmap in Hin as (h & -> & Hh).
    exists h. split; [assumption | reflexivity].
  - intros h Hh.
    change (final_score DBLP query h) with (score (dblp_candidate query h)).
    destruct (Qltb 0.0 (score (dblp_candidate query h))) eqn:Epos.
    + apply Hle. rewrite Hperm. unfold dblp_candidates.
      apply list_elem_of_filter. split; [assumption|].
      apply list_elem_of_fmap. now exists h.
    + apply Qltb_ge in Epos.
      apply (Qle_trans _ 0.0); [assumption|].
      apply (Qle_trans _ 0.3); [discriminate|].
      eapply Qle_trans; eassumption.
Qed.

Lemma dblp_search_max query reply r :
  dblp_search parse query reply = Some r ->
  exists hits m, reply = Ret hits /\ IsMaxScore DBLP query hits m /\ 0.3 <= m.
Proof.
  intros H. unfold dblp_search in H.
  destruct reply as [|hits]; [discriminate|].
  destruct hits as [|h hits]; [discriminate|].
  destruct (dblp_select query (h :: hits)) as [best|] eqn:E; [|discriminate].
  destruct (Qltb (score best) 0.3) eqn:Ethr; [discriminate|].
  apply Qltb_ge in Ethr.
  destruct (dblp_select_max _ _ _ E Ethr) as (m & Hm & Hle).
  exists (h :: hits), m. split; [reflexivity|]. split; [assumption|].
  eapply Qle_trans; eassumption.
Qed.

Lemma search_max (c : client) query reply r :
  search parse c query reply = Some r ->
  exists hits m, reply = Ret hits /\ IsMaxScore c query hits m /\ 0.3 <= m.
Proof.
  destruct c; simpl; intros H;
    try (apply threshold_search_max in H; [assumption | discriminate]).
  - now apply dblp_search_max in H.
  - discriminate.
Qed.

End Threshold.

End ThresholdFacts.

(** X1. For every source client, every query and every reply of the source:
    the client returns a record only if the maximum final score over the
    candidates of the reply is at least 0.3; if that maximum is below 0.3
    the client returns nothing. *)
Theorem search_threshold :
  forall (raw record : Type)
         (parse : Searcher.client -> raw -> outcome record)
         (c : Searcher.client) (query : str)
         (reply : outcome (list (Searcher.hit raw))),
    (forall r, Searcher.search parse c query reply = Some r ->
               exists hits m,
                 reply = Ret hits /\ Spec.IsMaxScore c query hits m
                 /\ 0.3 <= m)
    /\ (forall hits m,
           reply = Ret hits -> Spec.IsMaxScore c query hits m -> m < 0.3 ->
           Searcher.search parse c query reply = None).
Proof.
  intros raw record parse c query reply. split.
  - intros r. apply ThresholdFacts.search_max.
  - intros hits m -> [_ Hmax] Hlt.
    destruct (Searcher.search parse c query (Ret hits)) as [r|] eqn:E;
      [|reflexivity].
    apply ThresholdFacts.search_max in E
      as (hits' & m' & Hreply & [(h & Hh & Hm') _] & Hthr).
    inversion Hreply; subst hits'. exfalso.
    apply (Qlt_not_le _ _ Hlt). eapply Qle_trans; [exact Hthr|].
    rewrite <- Hm'. now apply Hmax.
Qed.

Lemma search_threshold_witness :
  (exists hits m,
      Ret [Samples.a_hit (py "Deep Learning")] = Ret hits
      /\ Spec.IsMaxScore Searcher.CrossRef (py "deep learning") hits m
      /\ 0.3 <= m)
  /\ Searcher.search (fun _ _ => Ret tt) Searcher.CrossRef (py "deep learning")
                     (Ret [Samples.a_hit (py "Cooking with gas")])
     = None.
Proof.
  split.
  - apply (proj1 (search_threshold unit unit (fun _ _ => Ret tt)
                    Searcher.CrossRef (py "deep learning")
                    (Ret [Samples.a_hit (py "Deep Learning")])) tt).
    reflexivity.
  - apply (proj2 (search_threshold unit unit (fun _ _ => Ret tt)
                    Searcher.CrossRef (py "deep learning")
                    (Ret [Samples.a_hit (py "Cooking with gas")]))
                 [Samples.a_hit (py "Cooking with gas")]
                 (Utils.similarity_score (py "deep learning")
                                         (py "Cooking with gas"))).
    + reflexivity.
    + split.
      * exists (Samples.a_hit (py "Cooking with gas")).
        split; [left | reflexivity].
      * intros h Hh. apply list_elem_of_singleton in Hh. subst h.
        apply Qle_refl.
    + vm_compute. reflexivity.
Defined.

(** ** More on normalize_pages *)

Module PagesMore.
Import PyStr Utils Spec PyStrFacts PagesFacts.

Lemma runs_words_all p s w :
  w ∈ runs p s -> Forall (fun c => p c = true) w.
Proof.
  intros Hin. pose proof (MaximalRuns_runs p s) as H.
  induction H as [|gap run rest rs _ _ Hrun _ _ IH]; [inversion Hin|].
  apply elem_of_cons in Hin as [->|Hin]; auto.
Qed.

Lemma findall_digits_digits s w : w ∈ findall_digits s -> digits w.
Proof.
  intros H. split; [eapply runs_words_nonempty | eapply runs_words_all];
    exact H.
Qed.

Lemma findall_digits_one a : digits a -> findall_digits a = [a].
Proof.
  intros [Hne Ha]. unfold findall_digits, runs.
  rewrite <- (app_nil_r a) at 1. rewrite runs_from_run by assumption.
  simpl. destruct a; congruence.
Qed.

Lemma findall_digits_two a b :
  digits a -> digits b -> findall_digits (a ++ py "-" ++ b) = [a; b].
Proof.
  intros [Hna Ha] [Hnb Hb]. unfold findall_digits, runs.
  rewrite runs_from_run by assumption. simpl.
  change (isdigit "-") with false. cbv iota.
  destruct a as [|c a]; [congruence|]. f_equal.
  rewrite <- (app_nil_r b) at 1. rewrite runs_from_run by assumption.
  simpl. destruct b; congruence.
Qed.

Lemma findall_digits_none s :
  findall_digits s = [] <-> Forall (fun c => isdigit c = false) s.
Proof.
  split.
  - intros E. pose proof (MaximalRuns_runs isdigit s) as H.
    fold (findall_digits s) in H. rewrite E in H. now inversion H.
  - intros H. symmetry. apply (MaximalRuns_unique isdigit). now constructor.
Qed.

End PagesMore.

(** X2. Whatever normalize_pages returns is a page text (digits, or
    digits-hyphen-digits), and normalising it again gives it back. *)
Theorem normalize_pages_canonical :
  forall s r : str,
    Utils.normalize_pages s = Some r ->
    Spec.PageText r /\ Utils.normalize_pages r = Some r.
Proof.
  intros s r. rewrite !PagesFacts.normalize_pages_runs. intros H.
  assert (Hd : forall w, w ∈ PyStr.findall_digits s -> Spec.digits w)
    by apply PagesMore.findall_digits_digits.
  destruct (PyStr.findall_digits s) as [|a [|b rest]];
    cbv beta iota delta [Spec.page_range] in H.
  - discriminate.
  - injection H as <-. assert (Ha : Spec.digits a) by (apply Hd; left).
    split; [now left|].
    now rewrite PagesMore.findall_digits_one.
  - injection H as <-.
    assert (Ha : Spec.digits a) by (apply Hd; left).
    assert (Hb : Spec.digits b) by (apply Hd; right; left).
    split; [right; now exists a, b|].
    change (a ++ "-"%char :: b) with (a ++ py "-" ++ b).
    now rewrite PagesMore.findall_digits_two.
Qed.

Lemma normalize_pages_canonical_witness :
  Spec.PageText (py "123-145")
  /\ Utils.normalize_pages (py "123-145") = Some (py "123-145").
Proof.
  apply (normalize_pages_canonical (py "pp. 123--145, 2019")). reflexivity.
Defined.

(** X3. normalize_pages returns nothing exactly when the input holds no
    digit. *)
Theorem normalize_pages_none :
  forall s : str,
    Utils.normalize_pages s = None
    <-> Forall (fun c => PyStr.isdigit c = false) s.
Proof.
  intros s. rewrite PagesFacts.normalize_pages_runs.
  rewrite <- PagesMore.findall_digits_none.
  destruct (PyStr.findall_digits s) as [|a [|b rest]]; simpl;
    split; intros H; congruence.
Qed.

Lemma normalize_pages_none_witness :
  Utils.normalize_pages (py "n/a") = None.
Proof.
  apply (proj2 (normalize_pages_none (py "n/a"))). repeat constructor.
Defined.

(** ** More on similarity_score *)

Module SimilarityMore.
Import PyStr Utils Spec PyStrFacts SimilarityFacts.

Lemma isspace_lower_char c : isspace (lower_char c) = isspace c.
Proof.
  destruct c as [[] [] [] [] [] [] [] []]; vm_compute; congruence.
Qed.

Lemma blank_lower s : blank s -> blank (lower s).
Proof.
  unfold blank, lower. intros H. apply Forall_map.
  eapply Forall_impl; [exact H|]. intros c Hc. simpl.
  now rewrite isspace_lower_char.
Qed.

Lemma blank_rev s : blank s -> blank (rev s).
Proof.
  unfold blank. rewrite !Forall_forall. intros H c Hc. apply H.
  apply list_elem_of_In. apply in_rev. now apply list_elem_of_In.
Qed.

Lemma lstrip_blank_app ws s : blank ws -> lstrip (ws ++ s) = lstrip s.
Proof.
  induction 1 as [|c ws Hc _ IH]; simpl; [reflexivity|]. now rewrite Hc.
Qed.

Lemma lstrip_blank ws : blank ws -> lstrip ws = [].
Proof.
  intros H. rewrite <- (app_nil_r ws). now rewrite lstrip_blank_app.
Qed.

Lemma lstrip_app a b :
  lstrip (a ++ b) = match lstrip a with [] => lstrip b | _ => lstrip a ++ b end.
Proof.
  induction a as [|c a IH]; simpl; [now destruct (lstrip b)|].
  destruct (isspace c); [exact IH | reflexivity].
Qed.

Lemma rstrip_app_blank s ws : blank ws -> rstrip (s ++ ws) = rstrip s.
Proof.
  intros H. unfold rstrip. rewrite rev_app_distr.
  now rewrite lstrip_blank_app by now apply blank_rev.
Qed.

Lemma rstrip_blank ws : blank ws -> rstrip ws = [].
Proof.
  intros H. unfold rstrip. now rewrite lstrip_blank by now apply blank_rev.
Qed.

(** Blanks around a string do not survive [strip]. *)
Lemma strip_pad l s r : blank l -> blank r -> strip (l ++ s ++ r) = strip s.
Proof.
  intros Hl Hr. unfold strip. rewrite lstrip_blank_app by assumption.
  rewrite lstrip_app. destruct (lstrip s) as [|c t] eqn:E.
  - rewrite lstrip_blank by assumption. reflexivity.
  - now rewrite rstrip_app_blank.
Qed.

Lemma lower_app a b : lower (a ++ b) = lower a ++ lower b.
Proof. apply map_app. Qed.

Lemma containment_score_ge str1 str2 : 0.6 <= containment_score str1 str2.
Proof.
  unfold containment_score.
  repeat match goal with
         | |- context [if ?b then _ else _] => destruct b
         end; discriminate.
Qed.

Lemma true_div_0 b : true_div 0 b == 0.
Proof. unfold true_div. change (inject_Z 0) with 0. apply Qmult_0_l. Qed.

Lemma guarded_div_0 b :
  (if (0 <? b)%Z then true_div 0 b else 0.0) == 0.
Proof. destruct (0 <? b)%Z; [apply true_div_0 | reflexivity]. Qed.

Lemma disjoint_size (words1 words2 : list str) :
  (forall w, w ∈ words1 -> w ∉ words2) ->
  size ((list_to_set words1 : gset str) ∩ list_to_set words2) = 0%nat.
Proof.
  intros H. apply size_empty_iff. intros w. split.
  - intros Hw. apply elem_of_intersection in Hw as [H1 H2].
    apply elem_of_list_to_set in H1, H2. exfalso. now apply (H w).
  - intros Hw. now apply not_elem_of_empty in Hw.
Qed.

Lemma word_score_disjoint (words1 words2 : list str) :
  (forall w, w ∈ words1 -> w ∉ words2) ->
  word_score words1 words2 <= 0.15.
Proof.
  intros Hdis. unfold word_score, order_score.
  rewrite (disjoint_size _ _ Hdis). change (Z.of_nat 0) with 0%Z.
  change (0 <? 0)%nat with false. cbv iota.
  set (set1 := list_to_set words1 : gset str).
  set (set2 := list_to_set words2 : gset str).
  set (jaccard := if (0 <? Z.of_nat (size (set1 ∪ set2)))%Z then _ else 0.0).
  set (coverage := if (0 <? Z.of_nat (size set1))%Z then _ else 0.0).
  set (length_score := if (0 <? Z.max (len words1) (len words2))%Z then _ else 0.0).
  assert (Hj : jaccard == 0) by apply guarded_div_0.
  assert (Hc : coverage == 0) by apply guarded_div_0.
  assert (Hl : length_score <= 1).
  { unfold length_score.
    destruct (Z.ltb_spec 0 (Z.max (len words1) (len words2))) as [Hm|Hm].
    - assert (Hd : 0 <= true_div (Z.abs (len words1 - len words2))
                                 (Z.max (len words1) (len words2)) <= 1).
      { apply RangeFacts.true_div_range; [|assumption]. unfold len. lia. }
      destruct Hd. lra.
    - discriminate. }
  destruct (Qle_bool 1.0 coverage) eqn:E.
  - apply Qle_bool_iff in E. rewrite Hc in E. exfalso. apply E. reflexivity.
  - rewrite Hj, Hc. lra.
Qed.

End SimilarityMore.

(** X4. The score ignores letter case and the blanks around either string:
    strings that agree once lower-cased, whatever blanks surround them,
    score the same. *)
Theorem similarity_score_insensitive :
  forall a a' b b' l1 r1 l2 r2 : str,
    Spec.blank l1 -> Spec.blank r1 ->
    Spec.blank l2 -> Spec.blank r2 ->
    PyStr.lower a = PyStr.lower a' -> PyStr.lower b = PyStr.lower b' ->
    Utils.similarity_score (l1 ++ a ++ r1) (l2 ++ b ++ r2)
    = Utils.similarity_score a' b'.
Proof.
  intros a a' b b' l1 r1 l2 r2 Hl1 Hr1 Hl2 Hr2 Ha Hb.
  rewrite !SimilarityFacts.similarity_score_unfold. cbv zeta.
  rewrite !SimilarityMore.lower_app.
  rewrite !SimilarityMore.strip_pad by now apply SimilarityMore.blank_lower.
  now rewrite Ha, Hb.
Qed.

Lemma similarity_score_insensitive_witness :
  Utils.similarity_score (py " " ++ py "Deep Learning" ++ py "  ")
                         ([] ++ py "DEEP nets" ++ py " ")
  = Utils.similarity_score (py "deep learning") (py "Deep Nets").
Proof.
  apply similarity_score_insensitive;
    try (repeat constructor); reflexivity.
Defined.

(** X5. A title that contains the query (after lower-casing and trimming
    both) scores at least 0.6; so does every title against a blank
    query. *)
Theorem similarity_score_containing :
  forall query title : str,
    let q := PyStr.strip (PyStr.lower query) in
    let t := PyStr.strip (PyStr.lower title) in
    (Spec.Substring q t -> 0.6 <= Utils.similarity_score query title)
    /\ (q = [] -> 0.6 <= Utils.similarity_score query title).
Proof.
  intros query title q t.
  assert (H : Spec.Substring q t -> 0.6 <= Utils.similarity_score query title).
  { intros Hsub. rewrite SimilarityFacts.similarity_score_unfold. cbv zeta.
    fold q t. destruct (bool_decide (q = t)); [discriminate|].
    apply SimilarityFacts.contains_spec in Hsub. rewrite Hsub.
    apply SimilarityMore.containment_score_ge. }
  split; [exact H|].
  intros E. apply H. rewrite E. now exists [], t.
Qed.

Lemma similarity_score_containing_witness :
  0.6 <= Utils.similarity_score (py "BERT") (py "Pre-training of BERT models").
Proof.
  apply (proj1 (similarity_score_containing
                  (py "BERT") (py "Pre-training of BERT models"))).
  apply SimilarityFacts.contains_spec. reflexivity.
Defined.

(** X6. A title that neither equals nor contains the query and shares no
    word with it scores at most 0.15, below the acceptance threshold. *)
Theorem similarity_score_disjoint :
  forall query title : str,
    let q := PyStr.strip (PyStr.lower query) in
    let t := PyStr.strip (PyStr.lower title) in
    q <> t -> ~ Spec.Substring q t ->
    (forall w, w ∈ PyStr.split q -> w ∉ PyStr.split t) ->
    Utils.similarity_score query title <= 0.15
    /\ Utils.similarity_score query title < 0.3.
Proof.
  intros query title q t Hne Hsub Hdis.
  assert (H : Utils.similarity_score query title <= 0.15).
  { rewrite SimilarityFacts.similarity_score_unfold. cbv zeta. fold q t.
    rewrite bool_decide_eq_false_2 by assumption.
    destruct (PyStr.contains t q) eqn:Ec.
    { apply SimilarityFacts.contains_spec in Ec. contradiction. }
    destruct (PyStr.split q) as [|w1 ws1] eqn:E1; [discriminate|].
    destruct (PyStr.split t) as [|w2 ws2] eqn:E2; [discriminate|].
    now apply SimilarityMore.word_score_disjoint. }
  split; [exact H|]. eapply Qle_lt_trans; [exact H | reflexivity].
Qed.

Lemma similarity_score_disjoint_witness :
  Utils.similarity_score (py "graph neural networks") (py "Cooking with gas")
  <= 0.15
  /\ Utils.similarity_score (py "graph neural networks") (py "Cooking with gas")
     < 0.3.
Proof.
  apply similarity_score_disjoint.
  - vm_compute. congruence.
  - intros H. apply SimilarityFacts.contains_spec in H. vm_compute in H.
    congruence.
  - intros w Hw Hw'. vm_compute in Hw, Hw'.
    repeat (apply elem_of_cons in Hw as [->|Hw];
            [repeat (apply elem_of_cons in Hw' as [Hw'|Hw']; [discriminate|]);
             inversion Hw'|]).
    inversion Hw.
Defined.

(** ** More on the source clients *)

Module SearcherMore.
Import PyStr Utils Spec Searcher SimilarityFacts SearcherFacts.

Section Select.
Context {raw : Type}.
Implicit Types (papers : list (hit raw)) (query : str).




(** *** The sort is stable *)

Lemma filter_insert_desc q (x : candidate raw) l :
  StronglySorted by_score_desc l ->
  cands_of_score q (insert_desc x l) = cands_of_score q (x :: l).
Proof.
  unfold cands_of_score.
  induction 1 as [|y l Hl IH Hy]; [reflexivity|]. simpl insert_desc.
  destruct (Qltb (score x) (score y)) eqn:E; [|reflexivity].
  apply Qltb_lt in E.
  rewrite filter_cons. rewrite IH. rewrite !filter_cons.
  destruct (decide (Qeq_bool (score y) q = true)) as [Ey|Ey];
    destruct (decide (Qeq_bool (score x) q = true)) as [Ex|Ex];
    try reflexivity.
  exfalso. apply Qeq_bool_iff in Ey, Ex. rewrite Ey, Ex in E.
  exact (Qlt_irrefl _ E).
Qed.

Lemma sort_desc_stable q (l : list (candidate raw)) :
  cands_of_score q (sort_desc l) = cands_of_score q l.
Proof.
  induction l as [|x l IH]; [reflexivity|]. simpl sort_desc.
  rewrite filter_insert_desc by apply sort_desc_sorted.
  unfold cands_of_score in *. rewrite !filter_cons, IH. reflexivity.
Qed.

End Select.

End SearcherMore.

Module SelectFacts.
Import PyStr Utils Spec Searcher SimilarityFacts SearcherFacts SearcherMore.



Lemma similarity_score_bounds str1 str2 :
  0 <= similarity_score str1 str2 <= 1.
Proof.
  rewrite similarity_score_unfold. cbv zeta.
  destruct (bool_decide _); [split; discriminate|].
  destruct (contains _ _); [apply RangeFacts.containment_score_range|].
  destruct (split (strip (lower str1))); [split; discriminate|].
  destruct (split (strip (lower str2))); [split; discriminate|].
  apply RangeFacts.word_score_range.
Qed.

Lemma dblp_candidate_bounds {raw} query (h : hit raw) :
  0 <= score (dblp_candidate query h) <= 1.
Proof.
  unfold dblp_candidate. cbn [score].
  pose proof (similarity_score_bounds query (hit_title h)) as [H0 H1].
  set (base := similarity_score query (hit_title h)) in *.
  set (delta := (len (split (hit_title h)) - len (split query))%Z).
  set (penalised := if (3 <? delta)%Z then base * 0.7
                    else if (1 <? delta)%Z then base * 0.9 else base).
  assert (Hp : 0 <= penalised <= 1).
  { unfold penalised. destruct (3 <? delta)%Z; [split; lra|].
    destruct (1 <? delta)%Z; split; lra. }
  destruct Hp as [Hp0 Hp1].
  destruct ((Z.abs delta <=? 1)%Z && Qltb 0.5 penalised); [|split; assumption].
  split.
  - apply Q.min_glb; lra.
  - apply (Qle_trans _ 1.0); [apply Q.le_min_l | discriminate].
Qed.

Section Select.
Context {raw : Type}.


Lemma tie_break_unfold query (first : candidate raw) others :
  tie_break query first others =
    match others with
    | [] => first
    | [c1] => tie_break_step query first c1
    | c1 :: c2 :: _ =>
        tie_break_step query (tie_break_step query first c1) c2
    end.
Proof. destruct others as [|c1 [|c2 rest]]; reflexivity. Qed.


End Select.

End SelectFacts.



(** X8. The sort DBLP candidates go through rearranges them (nothing added
    or lost), puts higher scores first, and keeps candidates of equal score
    in the order the source returned them. *)
Theorem sort_desc_correct :
  forall (raw : Type) (l : list (Searcher.candidate raw)),
    Searcher.sort_desc l ≡ₚ l
    /\ StronglySorted Spec.by_score_desc (Searcher.sort_desc l)
    /\ forall q, Spec.cands_of_score q (Searcher.sort_desc l)
                 = Spec.cands_of_score q l.
Proof.
  intros raw l. split; [apply SearcherFacts.sort_desc_perm|].
  split; [apply SearcherFacts.sort_desc_sorted|].
  intros q. apply SearcherMore.sort_desc_stable.
Qed.

(** X9. The adjusted score DBLP ranks by stays between 0 and 1. *)
Theorem dblp_adjusted_score_range :
  forall (raw : Type) (query : str) (h : Searcher.hit raw),
    0 <= Searcher.score (Searcher.dblp_candidate query h) <= 1.
Proof. intros. apply SelectFacts.dblp_candidate_bounds. Qed.

(** X10. One round of the DBLP tie-break replaces the current best by the
    candidate exactly when the best's score exceeds the candidate's by less
    than 0.05, the candidate's word-count difference is smaller, and the
    query has a word and every word of the query is a word of the
    candidate's title (both lower-cased); the selection applies it to the
    second and third candidates in turn. *)
Theorem dblp_tie_break :
  forall (raw : Type) (query : str),
    (forall best cand : Searcher.candidate raw,
        (Spec.Promotes query best cand ->
         Searcher.tie_break_step query best cand = cand)
        /\ (~ Spec.Promotes query best cand ->
            Searcher.tie_break_step query best cand = best))
    /\ (forall (first : Searcher.candidate raw) others,
           Searcher.tie_break query first others =
             match others with
             | [] => first
             | [c1] => Searcher.tie_break_step query first c1
             | c1 :: c2 :: _ =>
                 Searcher.tie_break_step
                   query (Searcher.tie_break_step query first c1) c2
             end).
Proof.
  intros raw query. split.
  - intros best cand. apply SearcherFacts.tie_break_step_spec.
  - intros first others. apply SelectFacts.tie_break_unfold.
Qed.

Lemma dblp_tie_break_witness :
  Searcher.tie_break_step
    (py "deep learning")
    {| Searcher.info := tt; Searcher.score := 0.9;
       Searcher.title := py "Deep learning for vision";
       Searcher.word_diff := 2 |}
    {| Searcher.info := tt; Searcher.score := 0.88;
       Searcher.title := py "Deep Learning";
       Searcher.word_diff := 0 |}
  = {| Searcher.info := tt; Searcher.score := 0.88;
       Searcher.title := py "Deep Learning";
       Searcher.word_diff := 0 |}.
Proof.
  apply (proj1 (proj1 (dblp_tie_break unit (py "deep learning")) _ _)).
  split; [reflexivity|]. split; [reflexivity|].
  cbv zeta.
  replace (PyStr.split (PyStr.lower (py "deep learning")))
    with [py "deep"; py "learning"] by (vm_compute; reflexivity).
  replace (PyStr.split
             (PyStr.lower
                (Searcher.title
                   {| Searcher.info := tt; Searcher.score := 0.88;
                      Searcher.title := py "Deep Learning";
                      Searcher.word_diff := 0 |})))
    with [py "deep"; py "learning"] by (vm_compute; reflexivity).
  split; [|reflexivity].
  intros E. assert (H : py "deep" ∈ (∅ : gset str)); [|inversion H].
  rewrite <- E. apply elem_of_list_to_set. left.
Defined.



(** ** The cache *)

Module CacheFacts.
Import PyStr Spec Cache.

Lemma land_255 x : (N.land x 255 < 256)%N.
Proof.
  change 255%N with (N.ones 8). rewrite N.land_ones.
  apply N.mod_lt. discriminate.
Qed.

Lemma le_bytes_length n x : length (MD5.le_bytes n x) = n.
Proof.
  revert x. induction n as [|n IH]; intros x; simpl; [reflexivity|].
  now rewrite IH.
Qed.

Lemma le_bytes_bound n x : Forall (fun b => (b < 256)%N) (MD5.le_bytes n x).
Proof.
  revert x. induction n as [|n IH]; intros x; simpl; constructor.
  - apply land_255.
  - apply IH.
Qed.

Lemma hex_digit_hex n : (n < 16)%N -> is_hex (MD5.hex_digit n) = true.
Proof.
  intros H. destruct n as [|p]; [reflexivity|].
  repeat (destruct p as [p|p|]; try reflexivity; try lia).
Qed.

Lemma digest_shape msg :
  length (MD5.digest msg) = 16%nat
  /\ Forall (fun b => (b < 256)%N) (MD5.digest msg).
Proof.
  unfold MD5.digest.
  destruct (MD5.blocks _ _ _) as [[[a b] c] d].
  split.
  - rewrite !length_app, !le_bytes_length. reflexivity.
  - repeat (apply Forall_app; split); apply le_bytes_bound.
Qed.

Lemma hex_bytes_shape bs :
  Forall (fun b => (b < 256)%N) bs ->
  let hex := flat_map (fun b => [MD5.hex_digit (N.shiftr b 4);
                                 MD5.hex_digit (N.land b 15)]) bs in
  length hex = (2 * length bs)%nat /\ Forall (fun c => is_hex c = true) hex.
Proof.
  induction 1 as [|b bs Hb _ [IHl IHf]]; simpl.
  - split; [reflexivity | constructor].
  - split.
    + simpl in IHl. rewrite IHl. lia.
    + constructor; [|constructor; [|exact IHf]].
      * apply hex_digit_hex. rewrite N.shiftr_div_pow2.
        change (2 ^ 4)%N with 16%N.
        apply N.Div0.div_lt_upper_bound. exact Hb.
      * apply hex_digit_hex. change 15%N with (N.ones 4).
        rewrite N.land_ones. apply N.mod_lt. discriminate.
Qed.

Lemma hexdigest_shape msg :
  length (MD5.hexdigest msg) = 32%nat
  /\ Forall (fun c => is_hex c = true) (MD5.hexdigest msg).
Proof.
  unfold MD5.hexdigest. destruct (digest_shape msg) as [Hlen Hb].
  destruct (hex_bytes_shape _ Hb) as [Hl Hf]. split; [|exact Hf].
  rewrite Hl, Hlen. reflexivity.
Qed.

Section Facts.
Context {data : Type} (days : Z).
Implicit Types (cm : cache_manager data) (q : str).

Lemma get_miss q now cm :
  files cm !! _get_cache_key q = None -> get days q now cm = (None, cm).
Proof. intros H. unfold get. now rewrite H. Qed.

Lemma delete_files q cm k :
  files (delete q cm) !! k
  = if decide (_get_cache_key q = k) then None else files cm !! k.
Proof.
  unfold delete. cbn [files metadata].
  destruct (metadata cm !! _get_cache_key q); cbn [files _save_metadata];
    apply lookup_delete.
Qed.

Lemma delete_metadata q cm k :
  metadata (delete q cm) !! k
  = if decide (_get_cache_key q = k) then None else metadata cm !! k.
Proof.
  unfold delete. cbn [files metadata].
  destruct (metadata cm !! _get_cache_key q) eqn:E;
    cbn [metadata _save_metadata].
  - apply lookup_delete.
  - destruct (decide (_get_cache_key q = k)) as [<-|]; [exact E | reflexivity].
Qed.

Lemma delete_synced q cm : synced cm -> synced (delete q cm).
Proof.
  unfold synced, delete. cbn [files metadata metadata_file].
  destruct (metadata cm !! _get_cache_key q); intros H; [reflexivity | exact H].
Qed.

(** The result of [get] depends on the manager through the payload file and
    the metadata entry of the key only. *)
Lemma get_fst_local q now cm cm' :
  files cm' !! _get_cache_key q = files cm !! _get_cache_key q ->
  metadata cm' !! _get_cache_key q = metadata cm !! _get_cache_key q ->
  fst (get days q now cm') = fst (get days q now cm).
Proof.
  intros Hf Hm. unfold get. rewrite Hf, Hm.
  destruct (files cm !! _get_cache_key q) as [f|]; [|reflexivity].
  destruct (match metadata cm !! _get_cache_key q with
            | Some e => cached_at e | None => NoStamp end) as [| |t];
    try (destruct f; reflexivity).
  destruct (_ <? now)%Z; [reflexivity | destruct f; reflexivity].
Qed.

End Facts.

End CacheFacts.

(** X12. Round trip: a record stored by [set] is what [get] returns for the
    same query until the time-to-live has passed, and the lookup leaves the
    store as it was. *)
Theorem cache_round_trip :
  forall (data : Type) (days : Z) (cm : Cache.cache_manager data)
         (q : str) (d : data) (t_set t_get : Z),
    (t_get <= t_set + Cache.timedelta_days days)%Z ->
    Cache.get days q t_get (Cache.set q d t_set cm)
    = (Some d, Cache.set q d t_set cm).
Proof.
  intros data days cm q d t_set t_get H. unfold Cache.get, Cache.set.
  cbn [Cache.files Cache.metadata Cache._save_metadata].
  rewrite !lookup_insert_eq. cbn [Cache.cached_at].
  destruct (Z.ltb_spec (t_set + Cache.timedelta_days days) t_get);
    [lia | reflexivity].
Qed.

Lemma cache_round_trip_witness :
  Cache.get 30 (py "BERT") 2591999000000
            (Cache.set (py "BERT") 7%nat 0 (Cache.init ∅ None))
  = (Some 7%nat, Cache.set (py "BERT") 7%nat 0 (Cache.init ∅ None)).
Proof. apply cache_round_trip. vm_compute. discriminate. Defined.

(** X13. Expiry: when the entry of a query carries a time stamp and the
    clock is past that stamp plus the time-to-live, [get] returns nothing
    and removes the payload file and the metadata entry, in memory and on
    disk; the entries of other keys stay. *)
Theorem cache_expiry :
  forall (data : Type) (days : Z) (cm : Cache.cache_manager data)
         (q : str) (f : Cache.payload_file data) (e : Cache.meta_entry)
         (t now : Z),
    Cache.files cm !! Cache._get_cache_key q = Some f ->
    Cache.metadata cm !! Cache._get_cache_key q = Some e ->
    Cache.cached_at e = Cache.Stamp t ->
    (t + Cache.timedelta_days days < now)%Z ->
    let cm' := snd (Cache.get days q now cm) in
    fst (Cache.get days q now cm) = None
    /\ Cache.files cm' !! Cache._get_cache_key q = None
    /\ Cache.metadata cm' !! Cache._get_cache_key q = None
    /\ Spec.synced cm'
    /\ forall k, k <> Cache._get_cache_key q ->
                 Cache.files cm' !! k = Cache.files cm !! k
                 /\ Cache.metadata cm' !! k = Cache.metadata cm !! k.
Proof.
  intros data days cm q f e t now Hf Hm Ht Hexp.
  assert (E : Cache.get days q now cm = (None, Cache.delete q cm)).
  { unfold Cache.get. rewrite Hf, Hm, Ht.
    destruct (Z.ltb_spec (t + Cache.timedelta_days days) now); [reflexivity | lia]. }
  rewrite E. cbn [fst snd]. split; [reflexivity|].
  split; [rewrite CacheFacts.delete_files; now rewrite decide_True|].
  split; [rewrite CacheFacts.delete_metadata; now rewrite decide_True|].
  split.
  - unfold Spec.synced, Cache.delete. cbn [Cache.files Cache.metadata].
    rewrite Hm. reflexivity.
  - intros k Hk. rewrite CacheFacts.delete_files, CacheFacts.delete_metadata.
    now rewrite !decide_False by congruence.
Qed.

Lemma cache_expiry_witness :
  fst (Cache.get 30 (py "BERT") 2678400000000
                 (Cache.set (py "BERT") 7%nat 0 (Cache.init ∅ None)))
  = None.
Proof.
  refine (proj1 (cache_expiry nat 30 _ (py "BERT") (Cache.Holds 7%nat)
                   {| Cache.m_query := py "BERT";
                      Cache.cached_at := Cache.Stamp 0 |}
                   0 2678400000000 _ _ _ _)).
  - apply lookup_insert_eq.
  - apply lookup_insert_eq.
  - reflexivity.
  - vm_compute. reflexivity.
Defined.

(** X14. [get] returns a payload only if the payload file of the key holds
    it and, when the entry carries a time stamp, the clock is not past the
    stamp plus the time-to-live; a hit leaves the store untouched. *)
Theorem cache_hit_fresh :
  forall (data : Type) (days : Z) (cm : Cache.cache_manager data)
         (q : str) (now : Z) (d : data),
    fst (Cache.get days q now cm) = Some d ->
    Cache.files cm !! Cache._get_cache_key q = Some (Cache.Holds d)
    /\ snd (Cache.get days q now cm) = cm
    /\ forall e t,
         Cache.metadata cm !! Cache._get_cache_key q = Some e ->
         Cache.cached_at e = Cache.Stamp t ->
         (now <= t + Cache.timedelta_days days)%Z.
Proof.
  intros data days cm q now d. unfold Cache.get.
  destruct (Cache.files cm !! Cache._get_cache_key q) as [f|]; [|discriminate].
  destruct (Cache.metadata cm !! Cache._get_cache_key q) as [e|].
  - destruct (Cache.cached_at e) as [| |t] eqn:Et.
    + destruct f; cbn; intros H; [discriminate|]. injection H as ->.
      repeat split. intros e' t' He' Ht'. congruence.
    + destruct f; cbn; intros H; [discriminate|]. injection H as ->.
      repeat split. intros e' t' He' Ht'. congruence.
    + destruct (Z.ltb_spec (t + Cache.timedelta_days days) now) as [Hlt|Hge];
        [discriminate|].
      destruct f; cbn; intros H; [discriminate|]. injection H as ->.
      repeat split. intros e' t' He' Ht'.
      injection He' as <-. rewrite Et in Ht'. injection Ht' as <-. assumption.
  - destruct f; cbn; intros H; [discriminate|]. injection H as ->.
    repeat split. intros e' t' He'. discriminate.
Qed.

Lemma cache_hit_fresh_witness :
  Cache.files (Cache.set (py "BERT") 7%nat 0 (Cache.init ∅ None))
    !! Cache._get_cache_key (py "bert")
  = Some (Cache.Holds 7%nat).
Proof.
  refine (proj1 (cache_hit_fresh
                   nat 30 (Cache.set (py "BERT") 7%nat 0 (Cache.init ∅ None))
                   (py "bert") 5 7%nat _)).
  vm_compute. reflexivity.
Defined.

(** X15. The cache key is 32 lower-case hexadecimal digits, and queries
    that agree once lower-cased have the same key. *)
Theorem cache_key_shape :
  (forall q : str,
      length (Cache._get_cache_key q) = 32%nat
      /\ Forall (fun c => Spec.is_hex c = true) (Cache._get_cache_key q))
  /\ (forall q1 q2 : str,
         PyStr.lower q1 = PyStr.lower q2 ->
         Cache._get_cache_key q1 = Cache._get_cache_key q2).
Proof.
  split.
  - intros q. apply CacheFacts.hexdigest_shape.
  - intros q1 q2 H. unfold Cache._get_cache_key. now rewrite H.
Qed.

Lemma cache_key_shape_witness :
  Cache._get_cache_key (py "BERT") = Cache._get_cache_key (py "bert").
Proof.
  apply (proj2 cache_key_shape). vm_compute. reflexivity.
Defined.

(** X16. A payload file that is missing or unreadable is a miss: [get]
    returns nothing, whatever the clock; when the file is missing the store
    is left untouched. *)
Theorem cache_miss :
  forall (data : Type) (days : Z) (cm : Cache.cache_manager data)
         (q : str) (now : Z),
    (Cache.files cm !! Cache._get_cache_key q = None ->
     Cache.get days q now cm = (None, cm))
    /\ (Cache.files cm !! Cache._get_cache_key q = Some Cache.Unreadable ->
        fst (Cache.get days q now cm) = None).
Proof.
  intros data days cm q now. split.
  - apply CacheFacts.get_miss.
  - intros H. unfold Cache.get. rewrite H.
    repeat match goal with
           | |- context [match ?x with _ => _ end] => destruct x
           end; reflexivity.
Qed.

Lemma cache_miss_witness :
  Cache.get 30 (py "bert") 0 (Cache.init (data := nat) ∅ None)
  = (None, Cache.init ∅ None).
Proof.
  apply (proj1 (cache_miss nat 30 (Cache.init ∅ None) (py "bert") 0)).
  apply lookup_empty.
Defined.

(** X17. When [metadata.json] is missing or unreadable the manager starts
    with no metadata, and then no entry expires: [get] returns what the
    payload file holds at any time, and changes nothing. *)
Theorem cache_lost_metadata :
  forall (data : Type) (days : Z) (dir_files : gmap str (Cache.payload_file data))
         (dir_metadata : option Cache.metadata_json) (q : str) (now : Z),
    dir_metadata = None \/ dir_metadata = Some Cache.MetaUnreadable ->
    Cache.metadata (Cache.init dir_files dir_metadata) = ∅
    /\ Cache.get days q now (Cache.init dir_files dir_metadata)
       = (match dir_files !! Cache._get_cache_key q with
          | Some (Cache.Holds d) => Some d
          | _ => None
          end,
          Cache.init dir_files dir_metadata).
Proof.
  intros data days dir_files dir_metadata q now H.
  assert (E : Cache.metadata (Cache.init dir_files dir_metadata) = ∅)
    by (destruct H as [-> | ->]; reflexivity).
  split; [exact E|].
  unfold Cache.get. rewrite E, lookup_empty. cbn [Cache.files Cache.init].
  destruct (dir_files !! Cache._get_cache_key q) as [[|d]|]; reflexivity.
Qed.

Lemma cache_lost_metadata_witness :
  Cache.get 30 (py "bert") 99999999999999999
            (Cache.init {[ Cache._get_cache_key (py "bert") := Cache.Holds 7%nat ]}
                        (Some Cache.MetaUnreadable))
  = (Some 7%nat,
     Cache.init {[ Cache._get_cache_key (py "bert") := Cache.Holds 7%nat ]}
                (Some Cache.MetaUnreadable)).
Proof.
  destruct (cache_lost_metadata nat 30
              {[ Cache._get_cache_key (py "bert") := Cache.Holds 7%nat ]}
              (Some Cache.MetaUnreadable) (py "bert") 99999999999999999)
    as [_ E].
  - right. reflexivity.
  - rewrite E. now rewrite lookup_singleton_eq.
Defined.

(** X18. After [delete] the query is a miss, and neither [delete] nor [set]
    changes what [get] returns for a query with another key. *)
Theorem cache_delete_and_frame :
  forall (data : Type) (days : Z) (cm : Cache.cache_manager data)
         (q : str) (now : Z),
    fst (Cache.get days q now (Cache.delete q cm)) = None
    /\ forall q' d t,
         Cache._get_cache_key q' <> Cache._get_cache_key q ->
         fst (Cache.get days q' now (Cache.delete q cm))
         = fst (Cache.get days q' now cm)
         /\ fst (Cache.get days q' now (Cache.set q d t cm))
            = fst (Cache.get days q' now cm).
Proof.
  intros data days cm q now. split.
  - rewrite CacheFacts.get_miss; [reflexivity|].
    rewrite CacheFacts.delete_files. now rewrite decide_True.
  - intros q' d t Hk. split.
    + apply CacheFacts.get_fst_local.
      * rewrite CacheFacts.delete_files. now rewrite decide_False by congruence.
      * rewrite CacheFacts.delete_metadata.
        now rewrite decide_False by congruence.
    + apply CacheFacts.get_fst_local;
        cbn [Cache.set Cache.files Cache.metadata Cache._save_metadata];
        now rewrite lookup_insert_ne by congruence.
Qed.

Lemma cache_delete_and_frame_witness :
  fst (Cache.get 30 (py "gpt") 5
                 (Cache.delete (py "bert")
                               (Cache.set (py "gpt") 7%nat 0 (Cache.init ∅ None))))
  = fst (Cache.get 30 (py "gpt") 5
                   (Cache.set (py "gpt") 7%nat 0 (Cache.init ∅ None))).
Proof.
  refine (proj1 (proj2 (cache_delete_and_frame
                          nat 30
                          (Cache.set (py "gpt") 7%nat 0 (Cache.init ∅ None))
                          (py "bert") 5)
                       (py "gpt") 0%nat 0%Z _)).
  vm_compute. discriminate.
Defined.

(** X19. [set] and [clear_all] leave the metadata on disk equal to the
    metadata in memory, and [delete] and [get] keep them equal. *)
Theorem cache_metadata_synced :
  forall (data : Type) (days : Z) (cm : Cache.cache_manager data)
         (q : str) (d : data) (now : Z),
    Spec.synced (Cache.set q d now cm)
    /\ Spec.synced (Cache.clear_all cm)
    /\ (Spec.synced cm ->
        Spec.synced (Cache.delete q cm)
        /\ Spec.synced (snd (Cache.get days q now cm))).
Proof.
  intros data days cm q d now. split; [reflexivity|]. split; [reflexivity|].
  intros H. split; [now apply CacheFacts.delete_synced|].
  unfold Cache.get.
  repeat match goal with
         | |- context [match ?x with _ => _ end] => destruct x
         end; cbn [snd]; try assumption; now apply CacheFacts.delete_synced.
Qed.

Lemma cache_metadata_synced_witness :
  Spec.synced (Cache.delete (py "bert")
                            (Cache.set (py "bert") 7%nat 0 (Cache.init ∅ None))).
Proof.
  refine (proj1 (proj2 (proj2 (cache_metadata_synced
                                 nat 30
                                 (Cache.set (py "bert") 7%nat 0
                                            (Cache.init ∅ None))
                                 (py "bert") 0%nat 0%Z)) _)).
  reflexivity.
Defined.

(** X20. After [clear_all] every query is a miss. *)
Theorem cache_clear_all :
  forall (data : Type) (days : Z) (cm : Cache.cache_manager data)
         (q : str) (now : Z),
    Cache.get days q now (Cache.clear_all cm) = (None, Cache.clear_all cm).
Proof.
  intros. apply CacheFacts.get_miss. apply lookup_empty.
Qed.

(** ** The page-extraction steps *)

Module ChainFacts.
Import PyStr Spec Agent.

Section Facts.
Context {other : Type} (w : world).
Abbreviation result := (Agent.result other).
Abbreviation flow := (Agent.flow other).

Lemma no_set_nil : no_set [].
Proof. intros p src H. inversion H. Qed.

Lemma no_set_called e : no_set [Called e].
Proof.
  intros p src H. apply list_elem_of_singleton in H. discriminate.
Qed.

Lemma no_set_app evs1 evs2 : no_set evs1 -> no_set evs2 -> no_set (evs1 ++ evs2).
Proof.
  intros H1 H2 p src H. apply elem_of_app in H as [H|H];
    [now apply (H1 p src) | now apply (H2 p src)].
Qed.

Lemma same_rest_refl (r : result) : same_rest r r.
Proof. unfold same_rest. tauto. Qed.

Lemma Untouched_refl (r : result) : Untouched r r [].
Proof.
  split; [apply no_set_nil|]. split; [reflexivity|]. split; [reflexivity|].
  apply same_rest_refl.
Qed.

Lemma same_rest_trans (r r1 r2 : result) :
  same_rest r r1 -> same_rest r1 r2 -> same_rest r r2.
Proof.
  unfold same_rest.
  intros (H1 & H2 & H3 & H4 & H5 & H6 & H7) (K1 & K2 & K3 & K4 & K5 & K6 & K7).
  repeat split; try congruence.
  destruct H7 as [H7|H7]; [|now right].
  destruct K7 as [K7|K7]; [left; congruence | right; congruence].
Qed.

Lemma Untouched_trans (r r1 r2 : result) evs1 evs2 :
  Untouched r r1 evs1 -> Untouched r1 r2 evs2 -> Untouched r r2 (evs1 ++ evs2).
Proof.
  intros (N1 & P1 & S1 & R1) (N2 & P2 & S2 & R2).
  split; [now apply no_set_app|]. split; [congruence|]. split; [congruence|].
  eapply same_rest_trans; eassumption.
Qed.

Lemma Untouched_Filled (r r1 r2 : result) evs1 evs2 :
  Untouched r r1 evs1 -> Filled r1 r2 evs2 -> Filled r r2 (evs1 ++ evs2).
Proof.
  intros (N1 & P1 & S1 & R1) (calls & p & src & -> & N2 & F & T & P2 & S2 & R2).
  exists (evs1 ++ calls), p, src.
  split; [now rewrite app_assoc|]. split; [now apply no_set_app|].
  split; [now rewrite <- P1|]. split; [assumption|].
  split; [assumption|]. split; [assumption|].
  eapply same_rest_trans; eassumption.
Qed.

(** A block that has nothing to do. *)
Lemma BlockOK_skip strict (r : result) : BlockOK strict r (ret (Continue r)).
Proof.
  intros log. exists []. split; [now rewrite app_nil_r|].
  left. apply Untouched_refl.
Qed.

Lemma BlockOK_return strict (r : result) : BlockOK strict r (ret (Return r)).
Proof.
  intros log. exists []. split; [now rewrite app_nil_r|].
  left. apply Untouched_refl.
Qed.

Lemma BlockOK_weaken (r : result) m : BlockOK true r m -> BlockOK false r m.
Proof.
  intros H log. destruct (H log) as (evs & E & P). exists evs.
  split; [exact E|]. destruct (fst (m log)) as [|f]; [exact P|].
  destruct P as [P | [P _]]; [now left | right; split; [exact P | discriminate]].
Qed.

(** Sequencing after a strict block. *)
Lemma BlockOK_and_then strict (r : result) m k :
  BlockOK true r m ->
  (forall r' evs, Untouched r r' evs -> BlockOK strict r' (k r')) ->
  BlockOK strict r (and_then m k).
Proof.
  intros Hm Hk log. unfold and_then, bind.
  destruct (Hm log) as (evs & E & P).
  destruct (m log) as [[|f] log'] eqn:Em; cbn [fst snd] in *; subst log'.
  - exists evs. split; [reflexivity | exact P].
  - destruct f as [r'|r']; cbn [rec_of] in P.
    + exists evs. split; [reflexivity|]. cbn [fst ret rec_of].
      destruct P as [P | [P _]]; [now left|].
      right. split; [exact P|]. intros _. exact I.
    + destruct P as [P | [_ P]]; [|now destruct (P eq_refl)].
      destruct (Hk r' evs P (log ++ evs)) as (evs' & E' & P').
      exists (evs ++ evs'). split; [now rewrite E', app_assoc|].
      destruct (fst (k r' (log ++ evs))) as [|f'].
      * destruct P as [N _]. now apply no_set_app.
      * destruct P' as [P' | [P' S']].
        -- left. eapply Untouched_trans; eassumption.
        -- right. split; [eapply Untouched_Filled; eassumption | exact S'].
Qed.

(** Sequencing after a block that may go on once the pages are filled: what
    follows must then do nothing. *)
Lemma BlockOK_and_then_quiet (r : result) m k :
  BlockOK false r m ->
  (forall r' evs, Untouched r r' evs -> BlockOK false r' (k r')) ->
  (forall r', otruthy (r_pages r') = true -> k r' = ret (Continue r')) ->
  BlockOK false r (and_then m k).
Proof.
  intros Hm Hk Hq log. unfold and_then, bind.
  destruct (Hm log) as (evs & E & P).
  destruct (m log) as [[|f] log'] eqn:Em; cbn [fst snd] in *; subst log'.
  - exists evs. split; [reflexivity | exact P].
  - destruct f as [r'|r']; cbn [rec_of] in P.
    + exists evs. split; [reflexivity|]. cbn [fst ret rec_of].
      destruct P as [P | [P _]]; [now left|].
      right. split; [exact P | discriminate].
    + destruct P as [P | [P _]].
      * destruct (Hk r' evs P (log ++ evs)) as (evs' & E' & P').
        exists (evs ++ evs'). split; [now rewrite E', app_assoc|].
        destruct (fst (k r' (log ++ evs))) as [|f'].
        -- destruct P as [N _]. now apply no_set_app.
        -- destruct P' as [P' | [P' S']].
           ++ left. eapply Untouched_trans; eassumption.
           ++ right. split; [eapply Untouched_Filled; eassumption | exact S'].
      * assert (Ht : otruthy (r_pages r') = true).
        { destruct P as (calls & p & src & _ & _ & _ & T & Hp & _).
          now rewrite Hp. }
        rewrite (Hq r' Ht). exists evs. split; [reflexivity|].
        right. split; [exact P | discriminate].
Qed.

(** An extractor call followed by the assignment of what it found. *)
Lemma Filled_set (r : result) e pages source :
  otruthy (r_pages r) = false -> otruthy pages = true ->
  forall log,
    snd (set_pages r (the pages) source (log ++ [Called e]))
    = log ++ [Called e; SetPages (the pages) source]
    /\ exists r',
         fst (set_pages r (the pages) source (log ++ [Called e])) = Ret r'
         /\ Filled r r' [Called e; SetPages (the pages) source].
Proof.
  intros Hr Hp log. unfold set_pages. cbn [fst snd]. split.
  - now rewrite <- app_assoc.
  - eexists. split; [reflexivity|].
    exists [Called e], (the pages), source.
    split; [reflexivity|]. split; [apply no_set_called|].
    split; [exact Hr|]. split; [now destruct pages|].
    cbn. split; [reflexivity|]. split; [reflexivity|].
    unfold same_rest. cbn. tauto.
Qed.

End Facts.

End ChainFacts.

Module BlockFacts.
Import PyStr Spec Agent ChainFacts.

Section Facts.
Context {other : Type} (w : world).
Abbreviation result := (Agent.result other).
Abbreviation flow := (Agent.flow other).

Lemma Untouched_called (r : result) e : Untouched r r [Called e].
Proof.
  split; [apply no_set_called|]. split; [reflexivity|]. split; [reflexivity|].
  apply same_rest_refl.
Qed.

(** [try: m except Exception: pass], going on with the record as it was. *)
Lemma BlockOK_try strict (r : result) m :
  BlockOK strict r m -> BlockOK strict r (try_except m (ret (Continue r))).
Proof.
  intros Hm log. unfold try_except. destruct (Hm log) as (evs & E & P).
  destruct (m log) as [[|f] log'] eqn:Em; cbn [fst snd] in *; subst log'.
  - exists evs. split; [reflexivity|]. left. cbn [rec_of].
    split; [exact P|]. split; [reflexivity|]. split; [reflexivity|].
    apply same_rest_refl.
  - exists evs. split; [reflexivity | exact P].
Qed.

(** An extractor call, then a block. *)
Lemma BlockOK_call {A} strict (r : result) e (answer : outcome A) k :
  (forall a, BlockOK strict r (k a)) ->
  BlockOK strict r (bind (call e answer) k).
Proof.
  intros Hk log. unfold bind, call. destruct answer as [|a].
  - exists [Called e]. split; [reflexivity | apply no_set_called].
  - destruct (Hk a (log ++ [Called e])) as (evs & E & P).
    exists ([Called e] ++ evs). split; [now rewrite E, app_assoc|].
    destruct (fst (k a (log ++ [Called e]))) as [|f].
    + apply no_set_app; [apply no_set_called | exact P].
    + destruct P as [P | [P S]].
      * left. eapply Untouched_trans; [apply Untouched_called | exact P].
      * right. split; [|exact S].
        eapply Untouched_Filled; [apply Untouched_called | exact P].
Qed.

(** A step that may raise but calls nothing, then a block. *)
Lemma BlockOK_pure {A} strict (r : result) (o : outcome A) k :
  (forall a, BlockOK strict r (k a)) ->
  BlockOK strict r (bind (fun log => (o, log)) k).
Proof.
  intros Hk log. unfold bind. destruct o as [|a].
  - exists []. split; [now rewrite app_nil_r | apply no_set_nil].
  - apply Hk.
Qed.

(** The assignment of a page string that was found. *)
Lemma BlockOK_set strict (r : result) pages source (wrap : result -> flow) :
  otruthy (r_pages r) = false -> otruthy pages = true ->
  (strict = true -> forall r', is_return (wrap r')) ->
  (forall r', rec_of (wrap r') = r') ->
  BlockOK strict r (bind (set_pages r (the pages) source)
                         (fun r' => ret (wrap r'))).
Proof.
  intros Hr Hp Hs Hw log. unfold bind, set_pages, ret. cbn [fst snd].
  exists [SetPages (the pages) source]. split; [reflexivity|].
  right. split; [|intros S; now apply Hs].
  rewrite Hw. exists [], (the pages), source.
  split; [reflexivity|]. split; [apply no_set_nil|].
  split; [exact Hr|]. split; [now destruct pages|].
  cbn. split; [reflexivity|]. split; [reflexivity|].
  unfold same_rest. cbn. tauto.
Qed.

(** An extractor call and the assignment of what it found, if anything. *)
Lemma BlockOK_fill strict (r : result) e answer source
      (wrap : result -> flow) :
  otruthy (r_pages r) = false ->
  (strict = true -> forall r', is_return (wrap r')) ->
  (forall r', rec_of (wrap r') = r') ->
  BlockOK strict r
    (bind (call e answer)
          (fun pages =>
             if otruthy pages
             then bind (set_pages r (the pages) source)
                       (fun r' => ret (wrap r'))
             else ret (Continue r))).
Proof.
  intros Hr Hs Hw. apply BlockOK_call. intros pages.
  destruct (otruthy pages) eqn:Hp.
  - now apply BlockOK_set.
  - apply BlockOK_skip.
Qed.

Lemma neurips_block_ok (r : result) url paper_title :
  otruthy (r_pages r) = false ->
  BlockOK true r (neurips_block other w r url paper_title).
Proof.
  intros Hr. unfold neurips_block.
  destruct (otruthy url && _); [|apply BlockOK_skip].
  apply BlockOK_try. apply BlockOK_fill; [exact Hr | |reflexivity].
  intros _ r'. exact I.
Qed.

Lemma dblp_block_ok (r : result) engines paper_title :
  otruthy (r_pages r) = false ->
  BlockOK true r (dblp_block other w r engines paper_title).
Proof.
  intros Hr. unfold dblp_block.
  destruct (otruthy _ && _); [|apply BlockOK_skip].
  apply BlockOK_fill; [exact Hr | |reflexivity].
  intros _ r'. exact I.
Qed.

Lemma pmlr_block_ok (r : result) url paper_title :
  BlockOK false r (pmlr_block other w r url paper_title).
Proof.
  unfold pmlr_block.
  destruct (otruthy url && _); [|apply BlockOK_skip].
  apply BlockOK_try. apply BlockOK_call. intros [pr|]; [|apply BlockOK_skip].
  intros log. unfold bind.
  destruct (otruthy (p_pages pr) && negb (otruthy (r_pages r))) eqn:Ec.
  - apply andb_true_iff in Ec as [Hp Hr]. apply negb_true_iff in Hr.
    unfold set_pages, ret. cbn [fst snd].
    exists [SetPages (the (p_pages pr)) (py "pmlr")].
    split; [reflexivity|]. right. split; [|discriminate].
    exists [], (the (p_pages pr)), (py "pmlr").
    split; [reflexivity|]. split; [apply no_set_nil|].
    split; [exact Hr|]. split; [now destruct (p_pages pr)|].
    destruct (otruthy (p_bibtex pr) && _) eqn:Eb; cbn.
    + split; [reflexivity|]. split; [reflexivity|].
      apply andb_true_iff in Eb as [_ Eb]. apply negb_true_iff in Eb.
      cbn in Eb. unfold same_rest. cbn. tauto.
    + split; [reflexivity|]. split; [reflexivity|].
      unfold same_rest. cbn. tauto.
  - unfold ret. cbn [fst snd]. exists []. split; [now rewrite app_nil_r|].
    left. split; [apply no_set_nil|].
    destruct (otruthy (p_bibtex pr) && _) eqn:Eb; cbn.
    + split; [reflexivity|]. split; [reflexivity|].
      apply andb_true_iff in Eb as [_ Eb]. apply negb_true_iff in Eb.
      unfold same_rest. cbn. tauto.
    + split; [reflexivity|]. split; [reflexivity|]. apply same_rest_refl.
Qed.

Lemma doi2bib_block_ok (r : result) url :
  otruthy (r_pages r) = false ->
  BlockOK true r (doi2bib_block other w r url).
Proof.
  intros Hr. unfold doi2bib_block. apply BlockOK_try.
  destruct (doi_search url); [|apply BlockOK_skip].
  apply BlockOK_fill; [exact Hr | |reflexivity].
  intros _ r'. exact I.
Qed.

Lemma llm_doi_block_ok (r : result) url paper_title :
  otruthy (r_pages r) = false ->
  BlockOK true r (llm_doi_block other w r url paper_title).
Proof.
  intros Hr. unfold llm_doi_block. apply BlockOK_try.
  apply BlockOK_call. intros redirected_url.
  assert (Hk : forall redirected_domain,
             BlockOK true r
               (if any_domain_in (lower redirected_domain)
                then ret (Return r)
                else bind (call LLMDoi (llm_doi w url paper_title))
                          (fun pages =>
                             if otruthy pages
                             then bind (set_pages r (the pages)
                                                  (py "llm_doi_extraction"))
                                       (fun r' => ret (Return r'))
                             else ret (Continue r)))).
  { intros d. destruct (any_domain_in (lower d)); [apply BlockOK_return|].
    apply BlockOK_fill; [exact Hr | |reflexivity]. intros _ r'. exact I. }
  destruct (contains redirected_url (py "/")).
  - apply (BlockOK_pure true r (third_part redirected_url)). exact Hk.
  - apply (BlockOK_pure true r (Ret [])). exact Hk.
Qed.

Lemma llm_url_block_ok (r : result) url paper_title :
  otruthy (r_pages r) = false ->
  BlockOK false r (llm_url_block other w r url paper_title).
Proof.
  intros Hr. unfold llm_url_block.
  destruct (negb _); [|apply BlockOK_skip].
  apply BlockOK_try. apply BlockOK_fill; [exact Hr | discriminate | reflexivity].
Qed.

Lemma url_block_quiet (r : result) url paper_title :
  otruthy (r_pages r) = true ->
  url_block other w r url paper_title = ret (Continue r).
Proof. intros H. unfold url_block. now rewrite H. Qed.

Lemma url_block_ok (r : result) url paper_title :
  BlockOK false r (url_block other w r url paper_title).
Proof.
  unfold url_block.
  destruct (otruthy (r_pages r)) eqn:Hr; [apply BlockOK_skip|].
  cbn [negb andb]. destruct (otruthy url); [|apply BlockOK_skip].
  destruct (any_domain_in (lower (the url))).
  - apply (BlockOK_pure false r (third_part (the url))).
    intros _. apply BlockOK_return.
  - assert (Hpages : forall r' evs, Untouched r r' evs ->
                                    otruthy (r_pages r') = false).
    { intros r' evs (_ & Hp & _). now rewrite Hp. }
    apply BlockOK_and_then.
    + destruct (_ || _); [|apply BlockOK_skip].
      apply BlockOK_and_then; [now apply doi2bib_block_ok|].
      intros r' evs Hu. apply llm_doi_block_ok. eapply Hpages. exact Hu.
    + intros r' evs Hu. apply llm_url_block_ok. eapply Hpages. exact Hu.
Qed.

(** The four blocks of [_supplement_pages] in sequence. *)
Lemma supplement_blocks_ok (r : result) engines url paper_title :
  otruthy (r_pages r) = false ->
  BlockOK false r
    (and_then (neurips_block other w r url paper_title) (fun r =>
     and_then (dblp_block other w r engines paper_title) (fun r =>
     and_then (pmlr_block other w r url paper_title) (fun r =>
     url_block other w r url paper_title)))).
Proof.
  intros Hr.
  assert (Hpages : forall (r0 r' : result) evs,
             otruthy (r_pages r0) = false -> Untouched r0 r' evs ->
             otruthy (r_pages r') = false).
  { intros r0 r' evs H0 (_ & Hp & _). now rewrite Hp. }
  apply BlockOK_and_then; [now apply neurips_block_ok|].
  intros r1 evs1 Hu1. pose proof (Hpages _ _ _ Hr Hu1) as Hr1.
  apply BlockOK_and_then; [now apply dblp_block_ok|].
  intros r2 evs2 Hu2.
  apply BlockOK_and_then_quiet.
  - apply pmlr_block_ok.
  - intros r3 evs3 _. apply url_block_ok.
  - intros r3 H3. now apply url_block_quiet.
Qed.

Lemma supplement_pages_fill_only (r : result) engines log :
  otruthy (r_pages r) = false ->
  exists evs,
    snd (_supplement_pages other w r engines log) = log ++ evs
    /\ FillOnly r (fst (_supplement_pages other w r engines log)) evs.
Proof.
  intros Hr. unfold _supplement_pages, bind.
  destruct (supplement_blocks_ok
              r engines
              (py_or (py_or (r_url r) (r_dblp_url r)) (r_pdf_url r))
              (default [] (r_title r)) Hr log) as (evs & E & P).
  destruct (and_then _ _ log) as [[|f] log'] eqn:Em; cbn [fst snd] in *;
    subst log'.
  - exists evs. split; [reflexivity | exact P].
  - exists evs. destruct f as [r'|r']; cbn [ret fst snd rec_of] in *;
      (split; [reflexivity|]); destruct P as [P | [P _]];
      [now left | now right | now left | now right].
Qed.

Lemma supplement_pages_after (r : result) engines e :
  otruthy (r_pages r) = false ->
  FillOnly r (fst (_supplement_pages other w r engines [Called e]))
           (snd (_supplement_pages other w r engines [Called e])).
Proof.
  intros Hr.
  destruct (supplement_pages_fill_only r engines [Called e] Hr)
    as (evs & E & P).
  rewrite E. destruct (fst (_supplement_pages _ _ _ _ _)) as [|r'].
  - apply no_set_app; [apply no_set_called | exact P].
  - destruct P as [P|P].
    + left. eapply Untouched_trans; [apply Untouched_called | exact P].
    + right. eapply Untouched_Filled; [apply Untouched_called | exact P].
Qed.

(** [PaperAgent.search], the extraction steps on a searcher's result. *)
Lemma search_extraction_fill_only (r : result) engines :
  FillOnly r (fst (search_extraction other w r engines []))
           (snd (search_extraction other w r engines [])).
Proof.
  unfold search_extraction.
  destruct (otruthy (r_pages r)) eqn:Hr.
  - cbn [negb]. unfold bind.
    destruct (otruthy (r_doi r)); cbn [ret fst snd]; rewrite Hr;
      cbn [negb ret fst snd]; left; apply Untouched_refl.
  - cbn [negb]. destruct (otruthy (r_doi r)) eqn:Hd.
    + unfold bind, try_except, call.
      destruct (doi2bib w (the (r_doi r))) as [|pages].
      * cbn [ret]. rewrite Hr. cbn [negb app].
        now apply supplement_pages_after.
      * destruct (otruthy pages) eqn:Hp.
        -- unfold set_pages. cbn [r_pages otruthy].
           assert (Ht : truthy (the pages) = true) by (now destruct pages).
           rewrite Ht. cbn [negb ret fst snd app].
           right. exists [Called DOI2Bib], (the pages), (py "doi2bib").
           split; [reflexivity|]. split; [apply no_set_called|].
           split; [exact Hr|]. split; [exact Ht|].
           cbn. split; [reflexivity|]. split; [reflexivity|].
           unfold same_rest. cbn. tauto.
        -- cbn [ret]. rewrite Hr. cbn [negb app].
           now apply supplement_pages_after.
    + unfold bind, ret. rewrite Hr. cbn [negb].
      destruct (supplement_pages_fill_only r engines [] Hr) as (evs & E & P).
      rewrite E. exact P.
Qed.

Lemma search_extraction_set (r : result) engines log :
  otruthy (r_pages r) = true ->
  search_extraction other w r engines log = (Ret r, log).
Proof.
  intros Hr. unfold search_extraction, bind.
  destruct (otruthy (r_doi r)); rewrite ?Hr; cbn [negb ret]; now rewrite ?Hr.
Qed.

End Facts.

End BlockFacts.

Module CallFacts.
Import PyStr Spec Agent.

Section Facts.
Context {other : Type} (w : world).
Abbreviation result := (Agent.result other).
Variable P : extractor -> Prop.








End Facts.


Section Blocks.
Context {other : Type} (w : world).
Abbreviation result' := (Agent.result other).






End Blocks.

End CallFacts.

(** X21. Fill-only: a record that already has pages goes through the
    extraction steps of [PaperAgent.search] unchanged, and no extractor is
    invoked. *)
Theorem extraction_keeps_pages :
  forall (other : Type) (w : Agent.world) (r : Agent.result other)
         (engines : list str) (log : list Agent.event),
    Agent.otruthy (Agent.r_pages r) = true ->
    Agent.search_extraction other w r engines log = (Ret r, log).
Proof. intros. now apply BlockFacts.search_extraction_set. Qed.

Lemma extraction_keeps_pages_witness :
  Agent.search_extraction
    unit Samples.offline
    (Samples.paper (py "https://example.org/p") (Some (py "1-9")))
    [py "dblp"] []
  = (Ret (Samples.paper (py "https://example.org/p") (Some (py "1-9"))), []).
Proof.
  apply extraction_keeps_pages. reflexivity.
Defined.

(** X22. The extraction steps of [PaperAgent.search] only fill gaps: either
    the pages of the record are left as they were, or the record had none
    and exactly one assignment, the last event of the run, gives it a
    non-empty page string and its source; title, URLs, DOI and the other
    keys are never changed, and a BibTeX entry is added only where there
    was none. A run that raises has assigned nothing. *)
Theorem extraction_fills_once :
  forall (other : Type) (w : Agent.world) (r : Agent.result other)
         (engines : list str),
    Spec.FillOnly r (fst (Agent.search_extraction other w r engines []))
                  (snd (Agent.search_extraction other w r engines [])).
Proof. intros. apply BlockFacts.search_extraction_fill_only. Qed.



(** ** PaperAgent.search *)

Module SearchFacts.
Import PyStr Spec Agent.

Section Facts.
Context {other : Type} (w : world)
        (searchers : str -> option (str -> option (Agent.result other)))
        (SEARCH_ENGINES : list str) (days : Z).
Abbreviation result := (Agent.result other).
Abbreviation cache := (Cache.cache_manager (Agent.result other)).

Lemma get_set (cm : cache) q (d : result) t_set t_get :
  (t_get <= t_set + Cache.timedelta_days days)%Z ->
  Cache.get days q t_get (Cache.set q d t_set cm)
  = (Some d, Cache.set q d t_set cm).
Proof.
  intros H. unfold Cache.get, Cache.set.
  cbn [Cache.files Cache.metadata Cache._save_metadata].
  rewrite !lookup_insert_eq. cbn [Cache.cached_at].
  destruct (Z.ltb_spec (t_set + Cache.timedelta_days days) t_get);
    [lia | reflexivity].
Qed.

(** A lookup that misses leaves a store in which the query still misses. *)
Lemma get_get_none (cm : cache) q now now' :
  fst (Cache.get days q now cm) = None ->
  fst (Cache.get days q now' (snd (Cache.get days q now cm))) = None.
Proof.
  unfold Cache.get at 1 3.
  destruct (Cache.files cm !! Cache._get_cache_key q) as [f|] eqn:Ef.
  - destruct (match match Cache.metadata cm !! Cache._get_cache_key q with
                    | Some e => Cache.cached_at e
                    | None => Cache.NoStamp
                    end with
              | Cache.Stamp t => (t + Cache.timedelta_days days <? now)%Z
              | _ => false
              end) eqn:Ex.
    + intros _. cbn [snd]. rewrite CacheFacts.get_miss; [reflexivity|].
      rewrite CacheFacts.delete_files. now rewrite decide_True.
    + destruct f as [|d]; cbn [fst snd]; [|discriminate]. intros _.
      unfold Cache.get. rewrite Ef.
      repeat match goal with
             | |- context [match ?x with _ => _ end] => destruct x
             end; reflexivity.
  - intros _. cbn [snd]. now rewrite CacheFacts.get_miss.
Qed.

Lemma first_result_spec query engines :
  match fst (first_result other searchers query engines) with
  | Some r =>
      exists pre name post,
        engines = pre ++ name :: post
        /\ finds searchers query name r
        /\ (forall n, n ∈ pre -> finds_nothing searchers query n)
        /\ snd (first_result other searchers query engines)
           = filter (fun n => is_Some (searchers n)) pre ++ [name]
  | None =>
      (forall n, n ∈ engines -> finds_nothing searchers query n)
      /\ snd (first_result other searchers query engines)
         = filter (fun n => is_Some (searchers n)) engines
  end.
Proof.
  induction engines as [|name rest IH]; cbn [first_result].
  - cbn. split; [|reflexivity]. intros n Hn. inversion Hn.
  - destruct (searchers name) as [s|] eqn:Es.
    + destruct (s query) as [r|] eqn:Er.
      * cbn [fst snd]. exists [], name, rest. split; [reflexivity|].
        split; [now exists s|]. split; [|reflexivity].
        intros n Hn. inversion Hn.
      * destruct (first_result other searchers query rest) as [found consulted].
        cbn [fst snd] in *.
        assert (Hname : finds_nothing searchers query name).
        { intros s' Hs'. congruence. }
        destruct found as [r|].
        -- destruct IH as (pre & last & post & -> & Hf & Hpre & Hc).
           exists (name :: pre), last, post. split; [reflexivity|].
           split; [exact Hf|]. split.
           ++ intros n Hn. apply elem_of_cons in Hn as [->|Hn]; auto.
           ++ rewrite filter_cons_True by (rewrite Es; eauto).
              now rewrite Hc.
        -- destruct IH as [Hall Hc]. split.
           ++ intros n Hn. apply elem_of_cons in Hn as [->|Hn]; auto.
           ++ rewrite filter_cons_True by (rewrite Es; eauto).
              now rewrite Hc.
    + assert (Hname : finds_nothing searchers query name).
      { intros s' Hs'. congruence. }
      destruct (fst (first_result other searchers query rest)) as [r|].
      * destruct IH as (pre & last & post & -> & Hf & Hpre & Hc).
        exists (name :: pre), last, post. split; [reflexivity|].
        split; [exact Hf|]. split.
        -- intros n Hn. apply elem_of_cons in Hn as [->|Hn]; auto.
        -- rewrite filter_cons_False; [exact Hc|].
           rewrite Es. intros [x Hx]. discriminate.
      * destruct IH as [Hall Hc]. split.
        -- intros n Hn. apply elem_of_cons in Hn as [->|Hn]; auto.
        -- rewrite filter_cons_False; [exact Hc|].
           rewrite Es. intros [x Hx]. discriminate.
Qed.

(** The shapes a run of [search] can take. *)
Lemma search_cases query use_cache search_engines now_get now_set (cm : cache) :
  let run := search other w searchers SEARCH_ENGINES days
                    query use_cache search_engines now_get now_set cm in
  let looked := if use_cache then Cache.get days query now_get cm
                else (None, cm) in
  (exists r, fst looked = Some r
             /\ run = {| returned := Ret (Some r); consulted := [];
                         events := []; cache_after := snd looked |})
  \/ (fst looked = None
      /\ ((exists r, returned run = Ret (Some r)
                     /\ cache_after run
                        = if use_cache
                          then Cache.set query r now_set (snd looked)
                          else snd looked)
          \/ ((returned run = Ret None \/ returned run = Raise)
              /\ cache_after run = snd looked))).
Proof.
  cbv zeta. unfold search.
  destruct (if use_cache then Cache.get days query now_get cm else (None, cm))
    as [[r|] cm0]; cbn [fst snd].
  - left. now exists r.
  - right. split; [reflexivity|].
    destruct (first_result other searchers query _) as [[r|] consulted].
    + destruct (search_extraction other w r _ []) as [[|r'] log].
      * right. cbn. auto.
      * left. exists r'. cbn. auto.
    + right. cbn. auto.
Qed.

End Facts.

End SearchFacts.

(** X24. A search that resolved a query through the searchers and cached
    the result is answered from the cache when repeated before the
    time-to-live has passed: the same record, no searcher consulted, no
    extractor invoked, the cache unchanged. *)
Theorem search_repeat_from_cache :
  forall (other : Type) (w : Agent.world)
         (searchers : str -> option (str -> option (Agent.result other)))
         (SEARCH_ENGINES : list str) (days : Z)
         (query : str) (engines engines' : option (list str))
         (t1 t2 t3 t4 : Z)
         (cm : Cache.cache_manager (Agent.result other))
         (r : Agent.result other),
    let run := Agent.search other w searchers SEARCH_ENGINES days
                            query true engines t1 t2 cm in
    fst (Cache.get days query t1 cm) = None ->
    Agent.returned run = Ret (Some r) ->
    (t3 <= t2 + Cache.timedelta_days days)%Z ->
    Agent.search other w searchers SEARCH_ENGINES days
                 query true engines' t3 t4 (Agent.cache_after run)
    = {| Agent.returned := Ret (Some r); Agent.consulted := [];
         Agent.events := []; Agent.cache_after := Agent.cache_after run |}.
Proof.
  intros other w searchers SE days query engines engines' t1 t2 t3 t4 cm r
         run Hmiss Hret Ht. subst run.
  destruct (SearchFacts.search_cases w searchers SE days query true engines
                                     t1 t2 cm)
    as [(r0 & H0 & _) | (_ & [(r0 & Hr0 & Hc) | ([Hn|Hn] & _)])].
  - cbn in H0. congruence.
  - assert (r0 = r) by congruence. subst r0. rewrite Hc.
    unfold Agent.search. rewrite SearchFacts.get_set by assumption.
    reflexivity.
  - congruence.
  - congruence.
Qed.

Lemma search_repeat_from_cache_witness :
  Agent.returned
    (Agent.search unit Samples.offline Samples.one_searcher [py "dblp"] 30
                  (py "attention") true None 7 8
                  (Agent.cache_after
                     (Agent.search unit Samples.offline Samples.one_searcher
                                   [py "dblp"] 30 (py "attention") true None
                                   0 1 (Cache.init ∅ None))))
  = Ret (Some (Samples.paper (py "https://example.org/p") (Some (py "1-9")))).
Proof.
  rewrite (search_repeat_from_cache
             unit Samples.offline Samples.one_searcher [py "dblp"] 30
             (py "attention") None None 0 1 7 8 (Cache.init ∅ None)
             (Samples.paper (py "https://example.org/p") (Some (py "1-9")))).
  - reflexivity.
  - vm_compute. reflexivity.
  - vm_compute. reflexivity.
  - vm_compute. discriminate.
Defined.

(** X25. A search with the cache switched off leaves the cache as it was;
    a search with the cache on that returns nothing, or fails, leaves no
    entry for the query: a later lookup of the query misses. *)
Theorem search_failure_caches_nothing :
  forall (other : Type) (w : Agent.world)
         (searchers : str -> option (str -> option (Agent.result other)))
         (SEARCH_ENGINES : list str) (days : Z)
         (query : str) (use_cache : bool) (engines : option (list str))
         (t1 t2 : Z) (cm : Cache.cache_manager (Agent.result other)),
    let run := Agent.search other w searchers SEARCH_ENGINES days
                            query use_cache engines t1 t2 cm in
    (use_cache = false -> Agent.cache_after run = cm)
    /\ (use_cache = true ->
        Agent.returned run = Ret None \/ Agent.returned run = Raise ->
        forall now,
          fst (Cache.get days query now (Agent.cache_after run)) = None).
Proof.
  intros other w searchers SE days query use_cache engines t1 t2 cm run.
  subst run.
  destruct (SearchFacts.search_cases w searchers SE days query use_cache
                                     engines t1 t2 cm)
    as [(r0 & H0 & E) | (Hm & [(r0 & Hr0 & Hc) | (Hn & Hc)])].
  - split.
    + intros ->. cbn in H0. discriminate.
    + intros -> [Hn|Hn] now; rewrite E in Hn; cbn in Hn; discriminate.
  - split.
    + intros ->. exact Hc.
    + intros -> [Hn|Hn] now; congruence.
  - split.
    + intros ->. exact Hc.
    + intros -> _ now. rewrite Hc. now apply SearchFacts.get_get_none.
Qed.

Lemma search_failure_caches_nothing_witness :
  Agent.cache_after
    (Agent.search unit Samples.offline Samples.one_searcher [py "dblp"] 30
                  (py "attention") false None 0 1 (Cache.init ∅ None))
  = Cache.init ∅ None
  /\ forall now,
       fst (Cache.get 30 (py "bert") now
              (Agent.cache_after
                 (Agent.search unit Samples.offline Samples.one_searcher
                               [py "dblp"] 30 (py "bert") true None 0 1
                               (Cache.init ∅ None))))
       = None.
Proof.
  split.
  - apply (proj1 (search_failure_caches_nothing
                    unit Samples.offline Samples.one_searcher [py "dblp"] 30
                    (py "attention") false None 0 1 (Cache.init ∅ None))).
    reflexivity.
  - apply (proj2 (search_failure_caches_nothing
                    unit Samples.offline Samples.one_searcher [py "dblp"] 30
                    (py "bert") true None 0 1 (Cache.init ∅ None))).
    + reflexivity.
    + left. vm_compute. reflexivity.
Defined.

(** X26. Priority order: the record [search] works on is found by the first
    name of the engine list whose searcher finds something for the query;
    every name before it finds nothing, names without a searcher are
    skipped, and the searchers consulted are those that come before it, in
    order, and itself. When nothing is found every searcher named in the
    list was consulted and found nothing. *)
Theorem first_result_priority :
  forall (other : Type)
         (searchers : str -> option (str -> option (Agent.result other)))
         (query : str) (engines : list str),
    match fst (Agent.first_result other searchers query engines) with
    | Some r =>
        exists pre name post,
          engines = pre ++ name :: post
          /\ Spec.finds searchers query name r
          /\ (forall n, n ∈ pre -> Spec.finds_nothing searchers query n)
          /\ snd (Agent.first_result other searchers query engines)
             = filter (fun n => is_Some (searchers n)) pre ++ [name]
    | None =>
        (forall n, n ∈ engines -> Spec.finds_nothing searchers query n)
        /\ snd (Agent.first_result other searchers query engines)
           = filter (fun n => is_Some (searchers n)) engines
    end.
Proof. intros. apply SearchFacts.first_result_spec. Qed.

Module BatchFacts.
Import PyStr Spec Agent.

Section Facts.
Context {other : Type} (w : world)
        (searchers : str -> option (str -> option (Agent.result other)))
        (SEARCH_ENGINES : list str) (days : Z).

Lemma batch_search_fst queries use_cache : forall clock cm results cm',
  batch_search other w searchers SEARCH_ENGINES days queries use_cache clock cm
  = (Ret results, cm') ->
  map fst results = queries.
Proof.
  induction queries as [|q queries IH]; intros clock cm results cm' H;
    cbn [batch_search] in H.
  - now inversion H.
  - destruct (returned _) as [|res]; [discriminate|].
    destruct (batch_search _ _ _ _ _ queries _ _ _) as [[|rs] cm''] eqn:E;
      [discriminate|].
    inversion H; subst. cbn. f_equal. eapply IH. exact E.
Qed.

Lemma batch_search_no_cache queries : forall clock cm results cm',
  batch_search other w searchers SEARCH_ENGINES days queries false clock cm
  = (Ret results, cm') ->
  cm' = cm
  /\ forall i q,
       queries !! i = Some q ->
       exists res,
         results !! i = Some (q, res)
         /\ returned (search other w searchers SEARCH_ENGINES days q false None
                             (fst (clock i)) (snd (clock i)) cm)
            = Ret res.
Proof.
  induction queries as [|q queries IH]; intros clock cm results cm' H;
    cbn [batch_search] in H.
  - inversion H; subst. split; [reflexivity|]. intros i q' Hq. discriminate.
  - destruct (SearchFacts.search_cases
                w searchers SEARCH_ENGINES days q false None
                (fst (clock O)) (snd (clock O)) cm)
      as [(r0 & H0 & _) | (_ & [(r0 & _ & Hc) | (_ & Hc)])];
      [cbn in H0; discriminate | |];
      cbn [snd] in Hc; rewrite Hc in H;
      destruct (returned _) as [|res] eqn:Er; try discriminate;
      destruct (batch_search _ _ _ _ _ queries _ _ _) as [[|rs] cm''] eqn:E;
      try discriminate;
      inversion H; subst;
      destruct (IH _ _ _ _ E) as [-> Hrest];
      (split; [reflexivity|]);
      intros [|i] q' Hq; cbn in Hq |- *;
      [ inversion Hq; subst; now exists res | now apply Hrest
      | inversion Hq; subst; now exists res | now apply Hrest ].
Qed.

End Facts.

End BatchFacts.

(** X27. A batch that completes returns one entry per query, in the order
    of the queries, each carrying its query; with the cache switched off the
    cache is left as it was and each entry holds what a search of that query
    alone returns. *)
Theorem batch_search_aligned :
  forall (other : Type) (w : Agent.world)
         (searchers : str -> option (str -> option (Agent.result other)))
         (SEARCH_ENGINES : list str) (days : Z)
         (queries : list str) (use_cache : bool) (clock : nat -> Z * Z)
         (cm cm' : Cache.cache_manager (Agent.result other))
         (results : list (str * option (Agent.result other))),
    Agent.batch_search other w searchers SEARCH_ENGINES days
                       queries use_cache clock cm = (Ret results, cm') ->
    map fst results = queries
    /\ (use_cache = false ->
        cm' = cm
        /\ forall i q,
             queries !! i = Some q ->
             exists res,
               results !! i = Some (q, res)
               /\ Agent.returned
                    (Agent.search other w searchers SEARCH_ENGINES days
                                  q false None
                                  (fst (clock i)) (snd (clock i)) cm)
                  = Ret res).
Proof.
  intros other w searchers SE days queries use_cache clock cm cm' results H.
  split; [eapply BatchFacts.batch_search_fst; exact H|].
  intros ->. eapply BatchFacts.batch_search_no_cache. exact H.
Qed.

Lemma batch_search_aligned_witness :
  map fst [(py "bert", @None (Agent.result unit)); (py "gpt", None)]
  = [py "bert"; py "gpt"].
Proof.
  apply (proj1 (batch_search_aligned
                  unit Samples.offline Samples.one_searcher [py "dblp"] 30
                  [py "bert"; py "gpt"] false (fun n => (0, 1)%Z)
                  (Cache.init ∅ None) (Cache.init ∅ None)
                  [(py "bert", None); (py "gpt", None)] eq_refl)).
Defined.

(** ** clean_title, extract_year and extract_from_bibtex *)

Module TitleFacts.
Import PyStr Utils Spec Titles Extractors.

Lemma collapse_from_spaces b s :
  Forall (fun c => isspace c = true -> c = " "%char) (collapse_from b s).
Proof.
  revert b. induction s as [|c s IH]; intros b; simpl; [constructor|].
  destruct (isspace c) eqn:Ec.
  - destruct b; [apply IH|]. constructor; [reflexivity | apply IH].
  - constructor; [congruence | apply IH].
Qed.

Lemma collapse_from_length b s : (length (collapse_from b s) <= length s)%nat.
Proof.
  revert b. induction s as [|c s IH]; intros b; simpl; [lia|].
  destruct (isspace c); [destruct b|]; simpl;
    [specialize (IH true) | specialize (IH true) | specialize (IH false)]; lia.
Qed.

Lemma lstrip_length s : (length (lstrip s) <= length s)%nat.
Proof.
  induction s as [|c s IH]; simpl; [lia|]. destruct (isspace c); simpl; lia.
Qed.

Lemma strip_length s : (length (strip s) <= length s)%nat.
Proof.
  unfold strip, rstrip. rewrite length_rev.
  etransitivity; [apply lstrip_length|]. rewrite length_rev.
  apply lstrip_length.
Qed.

Lemma kept_title_char c :
  kept c = true -> (isspace c = true -> c = " "%char) -> title_char c = true.
Proof.
  unfold kept, title_char. intros Hk Hs.
  destruct (isspace c) eqn:Es.
  - rewrite (Hs eq_refl). reflexivity.
  - rewrite orb_false_r in Hk.
    destruct (isword c); [reflexivity|]. cbn [orb] in *.
    destruct (bool_decide (c = " "%char)); [reflexivity|]. exact Hk.
Qed.

Lemma digit_value_range c :
  isdigit c = true -> (0 <= Z.of_N (code c) - 48 <= 9)%Z.
Proof.
  unfold isdigit, between. intros H. apply andb_true_iff in H as [H1 H2].
  apply N.leb_le in H1, H2. lia.
Qed.

Lemma match_year_spec s found :
  match_year s = Some found ->
  (exists post, s = found ++ post)
  /\ length found = 4%nat
  /\ Forall (fun c => isdigit c = true) found
  /\ (1900 <= int_of_digits found <= 2099)%Z.
Proof.
  unfold match_year. destruct s as [|c1 [|c2 [|c3 [|c4 rest]]]]; try discriminate.
  destruct (_ && _) eqn:E; [|discriminate]. intros H. injection H as <-.
  apply andb_true_iff in E as [E _].
  apply andb_true_iff in E as [E H4].
  apply andb_true_iff in E as [E H3].
  split; [now exists rest|]. split; [reflexivity|].
  pose proof (digit_value_range _ H3) as R3.
  pose proof (digit_value_range _ H4) as R4.
  apply orb_true_iff in E as [E|E]; apply andb_true_iff in E as [E1 E2];
    apply bool_decide_eq_true in E1, E2; subst c1 c2.
  - split; [repeat constructor; assumption|].
    unfold int_of_digits. cbn [fold_left].
    change (Z.of_N (code "1")) with 49%Z. change (Z.of_N (code "9")) with 57%Z.
    lia.
  - split; [repeat constructor; assumption|].
    unfold int_of_digits. cbn [fold_left].
    change (Z.of_N (code "2")) with 50%Z. change (Z.of_N (code "0")) with 48%Z.
    lia.
Qed.

Lemma search_year_spec s : forall prev found,
  search_year prev s = Some found ->
  exists pre post, s = pre ++ found ++ post
                   /\ match_year (found ++ post) = Some found.
Proof.
  induction s as [|c s IH]; intros prev found H; cbn [search_year] in H;
    [discriminate|].
  destruct (if prev then None else match_year (c :: s)) as [g|] eqn:E.
  - injection H as ->. destruct prev; [discriminate|].
    destruct (match_year_spec _ _ E) as ([post Hp] & _).
    exists [], post. split; [exact Hp|]. now rewrite <- Hp.
  - destruct (IH _ _ H) as (pre & post & -> & Hm).
    now exists (c :: pre), post.
Qed.

(** A pages field at the head of the text. *)
Lemma eat_ci_literal lit s : eat_ci (lower lit) (lit ++ s) = Some s.
Proof.
  induction lit as [|c lit IH]; simpl; [reflexivity|].
  unfold ci_match. rewrite bool_decide_eq_true_2 by reflexivity. exact IH.
Qed.

Lemma take_drop_while_body (body : str) closing rest :
  Forall (fun c => is_closing c = false) body ->
  is_closing closing = true ->
  Agent.take_while (fun c => negb (is_closing c)) (body ++ closing :: rest) = body
  /\ Agent.drop_while (fun c => negb (is_closing c)) (body ++ closing :: rest)
     = closing :: rest.
Proof.
  intros Hb Hc. induction Hb as [|c body Hcb _ [IH1 IH2]]; simpl.
  - now rewrite Hc.
  - rewrite Hcb. cbn [negb]. now rewrite IH1, IH2.
Qed.

Lemma match_pages_field_head label ws1 ws2 opening body closing rest :
  lower label = py "pages" ->
  blank ws1 -> blank ws2 ->
  is_opening opening = true -> is_closing closing = true ->
  body <> [] -> Forall (fun c => is_closing c = false) body ->
  match_pages_field
    (label ++ ws1 ++ py "=" ++ ws2 ++ opening :: body ++ closing :: rest)
  = Some body.
Proof.
  intros Hl H1 H2 Ho Hc Hne Hb. unfold match_pages_field.
  rewrite <- Hl, eat_ci_literal.
  rewrite SimilarityMore.lstrip_blank_app by assumption.
  change (py "=" ++ ws2 ++ opening :: body ++ closing :: rest)
    with ("="%char :: ws2 ++ opening :: body ++ closing :: rest).
  cbn [lstrip]. change (isspace "=") with false. cbv iota.
  rewrite bool_decide_eq_true_2 by reflexivity.
  rewrite SimilarityMore.lstrip_blank_app by assumption.
  assert (Hos : isspace opening = false).
  { unfold is_opening in Ho. apply orb_true_iff in Ho as [Ho|Ho];
      apply bool_decide_eq_true in Ho; subst; reflexivity. }
  cbn [lstrip]. rewrite Hos, Ho.
  destruct (take_drop_while_body body closing rest Hb Hc) as [-> ->].
  destruct body; [congruence | reflexivity].
Qed.

End TitleFacts.

(** X28. A cleaned title is made of word characters, plain spaces, hyphens,
    colons, commas and periods only (no tab, newline or other symbol), and
    is never longer than the title it comes from. *)
Theorem clean_title_chars :
  forall title : str,
    Forall (fun c => Spec.title_char c = true) (Titles.clean_title title)
    /\ (length (Titles.clean_title title) <= length title)%nat.
Proof.
  intros title. unfold Titles.clean_title. split.
  - apply Forall_forall. intros c Hc.
    apply list_elem_of_filter in Hc as [Hk Hc].
    apply TitleFacts.kept_title_char; [exact Hk|].
    pose proof (TitleFacts.collapse_from_spaces false (PyStr.strip title)) as H.
    rewrite Forall_forall in H. now apply H.
  - etransitivity; [apply length_filter|].
    etransitivity; [apply TitleFacts.collapse_from_length|].
    apply TitleFacts.strip_length.
Qed.

(** X29. A year that extract_year returns lies between 1900 and 2099 and is
    the value of four consecutive digits of the text. *)
Theorem extract_year_range :
  forall (text : str) (y : Z),
    Titles.extract_year text = Some y ->
    (1900 <= y <= 2099)%Z
    /\ exists pre found post,
         text = pre ++ found ++ post
         /\ length found = 4%nat
         /\ Forall (fun c => PyStr.isdigit c = true) found
         /\ y = Titles.int_of_digits found.
Proof.
  intros text y. unfold Titles.extract_year.
  destruct (Titles.search_year false text) as [found|] eqn:E; [|discriminate].
  intros H. injection H as <-.
  destruct (TitleFacts.search_year_spec _ _ _ E) as (pre & post & -> & Hm).
  destruct (TitleFacts.match_year_spec _ _ Hm) as (_ & Hl & Hd & Hr).
  split; [exact Hr|]. now exists pre, found, post.
Qed.

Lemma extract_year_range_witness : (1900 <= 2017 <= 2099)%Z.
Proof.
  apply (proj1 (extract_year_range (py "NeurIPS 2017, pp. 5998-6008") 2017
                                   eq_refl)).
Defined.

(** X30. What extract_from_bibtex returns is a page text in canonical form;
    and on a text that begins with a pages field (the word in any case,
    blanks around the equals sign, a body without closing brace or quote
    between an opening and a closing brace or quote) it returns the
    normalised body of the field. *)
Theorem extract_from_bibtex_field :
  (forall bibtex r : str,
      Extractors.extract_from_bibtex bibtex = Some r ->
      Spec.PageText r /\ Utils.normalize_pages r = Some r)
  /\ (forall (label ws1 ws2 body rest : str) (opening closing : ascii),
         PyStr.lower label = py "pages" ->
         Spec.blank ws1 -> Spec.blank ws2 ->
         Extractors.is_opening opening = true ->
         Extractors.is_closing closing = true ->
         body <> [] ->
         Forall (fun c => Extractors.is_closing c = false) body ->
         Extractors.extract_from_bibtex
           (label ++ ws1 ++ py "=" ++ ws2 ++ opening :: body ++ closing :: rest)
         = Utils.normalize_pages body).
Proof.
  split.
  - intros bibtex r. unfold Extractors.extract_from_bibtex.
    destruct (Extractors.search_pages_field bibtex) as [group|]; [|discriminate].
    rewrite !PagesFacts.normalize_pages_runs. intros H.
    assert (Hd : forall w, w ∈ PyStr.findall_digits group -> Spec.digits w)
      by apply PagesMore.findall_digits_digits.
    destruct (PyStr.findall_digits group) as [|a [|b more]];
      cbv beta iota delta [Spec.page_range] in H.
    + discriminate.
    + injection H as <-. assert (Ha : Spec.digits a) by (apply Hd; left).
      split; [now left|]. now rewrite PagesMore.findall_digits_one.
    + injection H as <-.
      assert (Ha : Spec.digits a) by (apply Hd; left).
      assert (Hb : Spec.digits b) by (apply Hd; right; left).
      split; [right; now exists a, b|].
      change (a ++ "-"%char :: b) with (a ++ py "-" ++ b).
      now rewrite PagesMore.findall_digits_two.
  - intros label ws1 ws2 body rest opening closing Hl H1 H2 Ho Hc Hne Hb.
    unfold Extractors.extract_from_bibtex.
    assert (E : Extractors.search_pages_field
                  (label ++ ws1 ++ py "=" ++ ws2
                         ++ opening :: body ++ closing :: rest)
                = Some body).
    { pose proof (TitleFacts.match_pages_field_head
                    label ws1 ws2 opening body closing rest
                    Hl H1 H2 Ho Hc Hne Hb) as Hm.
      destruct (label ++ ws1 ++ py "=" ++ ws2
                      ++ opening :: body ++ closing :: rest);
        cbn [Extractors.search_pages_field]; now rewrite Hm. }
    now rewrite E.
Qed.

Lemma extract_from_bibtex_field_witness :
  Extractors.extract_from_bibtex
    (py "Pages" ++ py " " ++ py "=" ++ [] ++ "{"%char :: py "12--34" ++ "}"%char :: py ", year")
  = Utils.normalize_pages (py "12--34").
Proof.
  apply (proj2 extract_from_bibtex_field);
    try reflexivity; try (repeat constructor); discriminate.
Defined.
